(** * Timing and style resolution engine of the groove extractor

    Shallow embedding of the Python modules
    - [src/models/jamaican_styles.py]   (style table, BPM-only correction)
    - [src/analyzers/jamaican_bpm.py]   (pattern-based BPM disambiguation)
    - [src/analyzers/swing_calculator.py]
    - [src/classifiers/hihat_classifier.py]
    - [src/models/timing_data.py], [src/converters/timing_converter.py]
    - [src/models/onset_data.py], [src/models/swing_analysis.py]
    - [src/models/groove_data.py], [src/groove_extractor.py]
      (instrument data of the extractor).

    Python floats are modelled as exact rationals [Q]; Python's [round]
    (round half to even), [int] (truncation toward zero), float [%]
    (floored modulo) and integer [%] are written out below. *)

From Stdlib Require Import ZArith QArith Qfield Qround Qabs Qminmax.
From Stdlib Require Import List String Bool Lia Lqa Sorted Permutation.
Import ListNotations.

Open Scope Q_scope.

(** ** Python numeric primitives *)

Definition Qltb (x y : Q) : bool := negb (Qle_bool y x).

(** [round(x)] on a float: round half to even. *)
Definition py_round (x : Q) : Z :=
  let f := Qfloor x in
  let r := x - inject_Z f in
  if Qltb r (1 # 2) then f
  else if Qltb (1 # 2) r then (f + 1)%Z
  else if Z.even f then f else (f + 1)%Z.

(** [x % m] on floats (floored modulo, result has the sign of [m]). *)
Definition py_fmod (x m : Q) : Q := x - m * inject_Z (Qfloor (x / m)).

(** [int(x)] on a float: truncation toward zero. *)
Definition py_int (x : Q) : Z := Z.quot (Qnum x) (Zpos (Qden x)).

(** An [int] used in float arithmetic. *)
Definition qnat (n : nat) : Q := inject_Z (Z.of_nat n).

(** ** models/jamaican_styles.py *)

Inductive JamaicanStyle :=
| SKA | ROCKSTEADY | EARLY_REGGAE | ONE_DROP | ROCKERS | STEPPERS
| DUB | ROOTS_REGGAE | UNKNOWN.

Definition style_eqb (a b : JamaicanStyle) : bool :=
  match a, b with
  | SKA, SKA | ROCKSTEADY, ROCKSTEADY | EARLY_REGGAE, EARLY_REGGAE
  | ONE_DROP, ONE_DROP | ROCKERS, ROCKERS | STEPPERS, STEPPERS
  | DUB, DUB | ROOTS_REGGAE, ROOTS_REGGAE | UNKNOWN, UNKNOWN => true
  | _, _ => false
  end.

Record StyleBPMRange := {
  range_style : JamaicanStyle;
  min_bpm : Q;
  max_bpm : Q;
  typical_bpm : Q
}.

(** [STYLE_BPM_RANGES], in the dict's insertion order. *)
Definition STYLE_BPM_RANGES : list (JamaicanStyle * StyleBPMRange) := [
  (SKA, {| range_style := SKA; min_bpm := 110; max_bpm := 180; typical_bpm := 145 |});
  (ROCKSTEADY, {| range_style := ROCKSTEADY; min_bpm := 70; max_bpm := 95; typical_bpm := 82 |});
  (EARLY_REGGAE, {| range_style := EARLY_REGGAE; min_bpm := 72; max_bpm := 100; typical_bpm := 85 |});
  (ONE_DROP, {| range_style := ONE_DROP; min_bpm := 65; max_bpm := 90; typical_bpm := 76 |});
  (ROCKERS, {| range_style := ROCKERS; min_bpm := 70; max_bpm := 95; typical_bpm := 80 |});
  (STEPPERS, {| range_style := STEPPERS; min_bpm := 70; max_bpm := 92; typical_bpm := 78 |});
  (ROOTS_REGGAE, {| range_style := ROOTS_REGGAE; min_bpm := 65; max_bpm := 95; typical_bpm := 78 |});
  (DUB, {| range_style := DUB; min_bpm := 60; max_bpm := 90; typical_bpm := 75 |})
].

(** [range_info.min_bpm <= bpm <= range_info.max_bpm] *)
Definition in_range (r : StyleBPMRange) (bpm : Q) : bool :=
  Qle_bool (min_bpm r) bpm && Qle_bool bpm (max_bpm r).

(** The confidence computed in the loop body of [suggest_style_from_bpm]. *)
Definition range_confidence (r : StyleBPMRange) (bpm : Q) : Q :=
  let distance := Qabs (bpm - typical_bpm r) in
  let max_distance := (max_bpm r - min_bpm r) / 2 in
  let confidence := if Qltb 0 max_distance then 1 - distance / max_distance else 1 in
  Qmax (1 # 2) (Qmin 1 confidence).

Definition suggest_step (bpm : Q) (acc : JamaicanStyle * Q)
    (entry : JamaicanStyle * StyleBPMRange) : JamaicanStyle * Q :=
  let (best_style, best_confidence) := acc in
  let (style, range_info) := entry in
  if in_range range_info bpm then
    let confidence := range_confidence range_info bpm in
    if Qltb best_confidence confidence then (style, confidence)
    else (best_style, best_confidence)
  else (best_style, best_confidence).

Definition suggest_style_from_bpm (bpm : Q) : JamaicanStyle * Q :=
  fold_left (suggest_step bpm) STYLE_BPM_RANGES (UNKNOWN, 0).

Definition reggae_styles : list JamaicanStyle :=
  [ONE_DROP; ROCKERS; STEPPERS; ROOTS_REGGAE; DUB].

Definition style_mem (s : JamaicanStyle) (l : list JamaicanStyle) : bool :=
  existsb (style_eqb s) l.

Definition suggest_bpm_correction (bpm : Q) (detected_style : JamaicanStyle)
    : Q * string :=
  if style_mem detected_style reggae_styles && Qltb 130 bpm then
    (bpm / 2, "halved"%string)
  else if style_eqb detected_style SKA && Qltb bpm 60 then
    (bpm * 2, "doubled"%string)
  else (bpm, "none"%string).

(** ** analyzers/jamaican_bpm.py : results and corrections *)

Record BPMAnalysisResult := {
  bpm_detected : Q;
  bpm_corrected : Q;
  style_suggested : JamaicanStyle;
  correction_type : string;
  confidence : Q;
  is_vintage : bool;
  tempo_drift : Q;
  alternatives : list (JamaicanStyle * Q)
}.

(** [list.sort(key=lambda x: x[1], reverse=True)]: a stable sort by
    decreasing confidence, equal keys keep their order. *)
Fixpoint insert_desc (x : JamaicanStyle * Q) (l : list (JamaicanStyle * Q))
    : list (JamaicanStyle * Q) :=
  match l with
  | [] => [x]
  | y :: l' => if Qle_bool (snd x) (snd y) then y :: insert_desc x l' else x :: l
  end.

Definition sort_desc (l : list (JamaicanStyle * Q)) : list (JamaicanStyle * Q) :=
  fold_left (fun acc x => insert_desc x acc) l [].

Definition alternative_confidence (r : StyleBPMRange) (bpm : Q) : Q :=
  let distance := Qabs (bpm - typical_bpm r) in
  let max_distance := (max_bpm r - min_bpm r) / 2 in
  let confidence := if Qltb 0 max_distance then 1 - distance / max_distance else 1 in
  Qmax (3 # 10) (Qmin 1 confidence).

Definition _get_style_alternatives (bpm : Q) : list (JamaicanStyle * Q) :=
  sort_desc
    (map (fun e => (fst e, alternative_confidence (snd e) bpm))
       (filter (fun e => in_range (snd e) bpm) STYLE_BPM_RANGES)).

Definition refine_bpm_with_pattern (bpm_detected0 : Q) (pattern_style : JamaicanStyle)
    (base_result : BPMAnalysisResult) : BPMAnalysisResult :=
  let '(bpm_corrected0, correction_type0, style_final) :=
    if Qltb 130 bpm_detected0 then
      match pattern_style with
      | SKA => (bpm_detected0, "none"%string, SKA)
      | ONE_DROP => (bpm_detected0 / 2, "halved"%string, ONE_DROP)
      | STEPPERS => (bpm_detected0 / 2, "halved"%string, STEPPERS)
      | ROCKERS => (bpm_detected0 / 2, "halved"%string, ROCKERS)
      | _ => let (b, c) := suggest_bpm_correction bpm_detected0 pattern_style in
             (b, c, pattern_style)
      end
    else (bpm_detected0, "none"%string, pattern_style) in
  let confidence0 := snd (suggest_style_from_bpm bpm_corrected0) in
  {| bpm_detected := bpm_detected0;
     bpm_corrected := bpm_corrected0;
     style_suggested := style_final;
     correction_type := correction_type0;
     confidence := confidence0;
     is_vintage := is_vintage base_result;
     tempo_drift := tempo_drift base_result;
     alternatives := _get_style_alternatives bpm_corrected0 |}.

(** The set [slow_styles] of [_apply_style_hint_correction]. *)
Definition hint_slow_styles : list JamaicanStyle :=
  [ONE_DROP; ROCKERS; STEPPERS; DUB; ROCKSTEADY].

Definition _apply_style_hint_correction (result : BPMAnalysisResult)
    (style_hint : JamaicanStyle) : BPMAnalysisResult :=
  let bpm_detected0 := bpm_detected result in
  let '(bpm_corrected0, correction_type0) :=
    if style_mem style_hint hint_slow_styles && Qltb 130 bpm_detected0 then
      (bpm_detected0 / 2, "halved"%string)
    else if style_eqb style_hint SKA then (bpm_detected0, "none"%string)
    else (bpm_detected0, "none"%string) in
  {| bpm_detected := bpm_detected0;
     bpm_corrected := bpm_corrected0;
     style_suggested := style_hint;
     correction_type := correction_type0;
     confidence := 9 # 10;
     is_vintage := is_vintage result;
     tempo_drift := tempo_drift result;
     alternatives := _get_style_alternatives bpm_corrected0 |}.

(** [_get_beat_positions]: the [tolerance] argument is accepted but
    never read by the Python function. *)
Definition _get_beat_positions (times : list Q) (bpm tolerance : Q) : list Z :=
  let beat_duration := 60 / bpm in
  map (fun t =>
         let beat_in_bar := py_fmod (t / beat_duration) 4 in
         Z.modulo (py_round beat_in_bar) 4) times.

(** [list.count] on the beat positions. *)
Definition count_pos (l : list Z) (x : Z) : nat := count_occ Z.eq_dec l x.

(** [detect_style_from_pattern]; [None] is the [ZeroDivisionError] raised
    by [60.0 / bpm] when [bpm] is zero. *)
Definition detect_style_from_pattern (kick_times snare_times : list Q) (bpm : Q)
    : option JamaicanStyle :=
  if Qeq_bool bpm 0 then None else
  let beat_duration := 60 / bpm in
  let tolerance := beat_duration * (15 # 100) in
  let analysis_duration := beat_duration * 16 in
  let kicks_in_range := filter (fun t => Qltb t analysis_duration) kick_times in
  let snares_in_range := filter (fun t => Qltb t analysis_duration) snare_times in
  if (List.length kicks_in_range <? 2)%nat then Some UNKNOWN else
  let kick_beats := _get_beat_positions kicks_in_range bpm tolerance in
  let snare_beats := _get_beat_positions snares_in_range bpm tolerance in
  let kick_on_1 := count_pos kick_beats 0 in
  let kick_on_2 := count_pos kick_beats 1 in
  let kick_on_3 := count_pos kick_beats 2 in
  let kick_on_4 := count_pos kick_beats 3 in
  let snare_on_2 := count_pos snare_beats 1 in
  let snare_on_3 := count_pos snare_beats 2 in
  let snare_on_4 := count_pos snare_beats 3 in
  let total_kicks := List.length kick_beats in
  if (total_kicks =? 0)%nat then Some UNKNOWN else
  let kicks_per_beat := [kick_on_1; kick_on_2; kick_on_3; kick_on_4] in
  if forallb (fun k => (0 <? k)%nat) kicks_per_beat then Some STEPPERS else
  let kick_3_ratio :=
    if (0 <? total_kicks)%nat then qnat kick_on_3 / qnat total_kicks else 0 in
  if Qltb (6 # 10) kick_3_ratio && Qltb (qnat kick_on_1 / qnat total_kicks) (2 # 10)
  then Some ONE_DROP else
  let kick_1_3_ratio :=
    if (0 <? total_kicks)%nat
    then qnat (kick_on_1 + kick_on_3) / qnat total_kicks else 0 in
  if Qltb (7 # 10) kick_1_3_ratio then
    if Qltb 110 bpm then Some SKA else Some ROCKERS
  else Some UNKNOWN.

(** [analyze_with_pattern]. The basic analysis [self.analyze(y)] runs
    librosa's beat tracker on the audio; its result enters here as
    [result]. [None] is a raised [ZeroDivisionError]. *)
Definition analyze_with_pattern (result : BPMAnalysisResult)
    (kick_times snare_times : list Q) (style_hint : option JamaicanStyle)
    : option BPMAnalysisResult :=
  let pattern_path :=
    if Qltb 130 (bpm_detected result) && (0 <? List.length kick_times)%nat
       && (0 <? List.length snare_times)%nat then
      match detect_style_from_pattern kick_times snare_times (bpm_detected result) with
      | Some pattern_style =>
          Some (refine_bpm_with_pattern (bpm_detected result) pattern_style result)
      | None => None
      end
    else Some result in
  match style_hint with
  | Some h => if negb (style_eqb h UNKNOWN)
              then Some (_apply_style_hint_correction result h)
              else pattern_path
  | None => pattern_path
  end.

(** ** analyzers/swing_calculator.py *)

(** Outcome of numeric code: [ZeroDivision] records that a division by a
    zero denominator was evaluated (a Python float raises, a numpy scalar
    returns inf/nan with a RuntimeWarning). *)
Inductive Outcome (A : Type) : Type :=
| Ok (a : A)
| ZeroDivision.
Arguments Ok {A} a.
Arguments ZeroDivision {A}.

Definition obind {A B : Type} (m : Outcome A) (k : A -> Outcome B) : Outcome B :=
  match m with
  | Ok a => k a
  | ZeroDivision => ZeroDivision
  end.

Notation "x <- m ;; k" := (obind m (fun x => k))
  (at level 61, m at next level, right associativity).

Definition qdiv (x y : Q) : Outcome Q :=
  if Qeq_bool y 0 then ZeroDivision else Ok (x / y).

(** Python's [max(a, b)] and [min(a, b)] keep [a] on ties. *)
Definition py_max (a b : Q) : Q := if Qltb a b then b else a.
Definition py_min (a b : Q) : Q := if Qltb b a then b else a.

Definition Qsum (l : list Q) : Q := fold_right Qplus 0 l.

(** Square root of a float, to six decimal places. *)
Definition Qsqrt_approx (q : Q) : Q :=
  Z.sqrt (Qnum q * Zpos (Qden q) * 1000000 * 1000000) # (Qden q * 1000000).

Definition np_mean (l : list Q) : Outcome Q := qdiv (Qsum l) (qnat (List.length l)).

Definition np_std (l : list Q) : Outcome Q :=
  m <- np_mean l ;;
  v <- np_mean (map (fun x => (x - m) * (x - m)) l) ;;
  Ok (Qsqrt_approx v).

Record SwingConfig := {
  min_intervals : nat;
  tolerance_ms : Q
}.

Definition default_swing_config : SwingConfig :=
  {| min_intervals := 4; tolerance_ms := 10 |}.

Record SwingAnalysis := {
  swing_percentage : Q;
  swing_ratio : Q;
  is_swung : bool;
  swing_confidence : Q;
  description : string
}.

(** [SwingAnalysis.__post_init__] fills an empty description. *)
Definition swing_description (p : Q) : string :=
  if Qltb p 52 then "Straight (sin swing)"%string
  else if Qltb p 58 then "Swing ligero"%string
  else if Qltb p 64 then "Swing moderado"%string
  else "Shuffle/swing pesado"%string.

Definition mkSwingAnalysis (p r : Q) (s : bool) (c : Q) (d : string) : SwingAnalysis :=
  {| swing_percentage := p; swing_ratio := r; is_swung := s;
     swing_confidence := c;
     description := if String.eqb d EmptyString then swing_description p else d |}.

(** The loop [for i in range(0, len(intervals) - 1, 2)]. *)
Fixpoint swing_pair_ratios (intervals : list Q) : Outcome (list Q) :=
  match intervals with
  | interval_1 :: interval_2 :: rest =>
      let long_interval := py_max interval_1 interval_2 in
      let short_interval := py_min interval_1 interval_2 in
      let total := long_interval + short_interval in
      if Qltb 0 total then
        ratio <- qdiv long_interval total ;;
        swing_ratios <- swing_pair_ratios rest ;;
        Ok (ratio :: swing_ratios)
      else swing_pair_ratios rest
  | _ => Ok []
  end.

Definition calculate_from_intervals (config : SwingConfig) (intervals : list Q)
    : Outcome SwingAnalysis :=
  if (List.length intervals <? min_intervals config)%nat then
    Ok (mkSwingAnalysis 50 1 false 0 "Datos insuficientes"%string)
  else
    swing_ratios <- swing_pair_ratios intervals ;;
    match swing_ratios with
    | [] => Ok (mkSwingAnalysis 50 1 false 0 "No se pudieron calcular ratios"%string)
    | _ =>
        mean_ratio <- np_mean swing_ratios ;;
        std_ratio <- np_std swing_ratios ;;
        let swing_percentage0 := mean_ratio * 100 in
        swing_ratio0 <- (if Qle_bool mean_ratio (1 # 2) then Ok 1
                         else qdiv mean_ratio (1 - mean_ratio)) ;;
        let is_swung0 := Qltb 52 swing_percentage0 in
        let confidence0 := Qmax 0 (1 - Qmin 1 (std_ratio * 10)) in
        Ok (mkSwingAnalysis swing_percentage0 swing_ratio0 is_swung0 confidence0 EmptyString)
    end.

(** ** classifiers/hihat_classifier.py *)

Inductive HiHatType := CLOSED | OPEN | HH_UNKNOWN.

Record HiHatFeatures := {
  decay_time : Q;
  amp_100ms : Q;
  temporal_centroid : Q;
  spectral_centroid : Q;
  spectral_bandwidth : Q;
  spectral_flatness : Q
}.

Record HiHatThresholds := {
  decay_open : Q;
  decay_closed : Q;
  weight_decay : Q;
  weight_amp : Q;
  weight_temporal : Q;
  weight_spectral : Q
}.

Definition default_thresholds : HiHatThresholds :=
  {| decay_open := 200 # 1000; decay_closed := 100 # 1000;
     weight_decay := 40 # 100; weight_amp := 25 # 100;
     weight_temporal := 20 # 100; weight_spectral := 15 # 100 |}.

Record HiHatClassification := {
  hit_type : HiHatType;
  hh_confidence : Q;
  features : option HiHatFeatures
}.

Record HiHatClassifier := {
  sr : Z;
  thresholds : HiHatThresholds;
  segment_duration : Q
}.

Definition mkHiHatClassifier (sr0 : Z) : HiHatClassifier :=
  {| sr := sr0; thresholds := default_thresholds; segment_duration := 300 # 1000 |}.

(** [y[a:b]] on a one-dimensional array: negative bounds count from the end. *)
Definition py_slice {A : Type} (y : list A) (a b : Z) : list A :=
  let n := Z.of_nat (List.length y) in
  let norm i := if (i <? 0)%Z then Z.max 0 (i + n) else Z.min i n in
  let a' := norm a in
  let b' := norm b in
  firstn (Z.to_nat (b' - a')) (skipn (Z.to_nat a') y).

Definition _extract_segment (c : HiHatClassifier) (y : list Q) (onset_time : Q) : list Q :=
  let start_sample := py_int (onset_time * inject_Z (sr c)) in
  let end_sample := (start_sample + py_int (segment_duration c * inject_Z (sr c)))%Z in
  let start_sample := Z.max 0 start_sample in
  let end_sample := Z.min (Z.of_nat (List.length y)) end_sample in
  py_slice y start_sample end_sample.

Definition _classify_from_features (c : HiHatClassifier) (f : HiHatFeatures)
    : HiHatType * Q :=
  let th := thresholds c in
  if Qltb (decay_time f) (decay_closed th) then
    let confidence0 := (8 # 10) + (2 # 10) * (1 - decay_time f / decay_closed th) in
    (CLOSED, Qmin 1 confidence0)
  else if Qltb (decay_open th) (decay_time f) then
    let confidence0 :=
      (8 # 10) + (2 # 10) * Qmin 1 ((decay_time f - decay_open th) / decay_open th) in
    (OPEN, Qmin 1 confidence0)
  else
    let decay_normalized :=
      (decay_time f - decay_closed th) / (decay_open th - decay_closed th) in
    let amp_normalized := Qmin 1 (amp_100ms f / (1 # 10)) in
    let centroid_normalized := Qmin 1 (temporal_centroid f / (15 # 100)) in
    let score :=
      0 + decay_normalized * weight_decay th + amp_normalized * weight_amp th
        + centroid_normalized * weight_temporal th
        + spectral_flatness f * weight_spectral th in
    let '(hit_type0, confidence0) :=
      if Qltb (1 # 2) score then (OPEN, (1 # 2) + (score - (1 # 2)))
      else (CLOSED, (1 # 2) + ((1 # 2) - score)) in
    (hit_type0, Qmin (7 # 10) confidence0).

Section Classify.
  (** [_extract_features]: the numpy envelope measures and librosa's
      spectral descriptors over the segment. *)
Variable _extract_features : HiHatClassifier -> list Q -> HiHatFeatures.

Definition classify (c : HiHatClassifier) (y : list Q) (onset_time : Q)
      : HiHatClassification :=
    let segment := _extract_segment c y onset_time in
    if (List.length segment <? 100)%nat then
      {| hit_type := HH_UNKNOWN; hh_confidence := 0; features := None |}
    else
      let features0 := _extract_features c segment in
      let '(hit_type0, confidence0) := _classify_from_features c features0 in
      {| hit_type := hit_type0; hh_confidence := confidence0; features := Some features0 |}.
End Classify.

(** ** models/timing_data.py and converters/timing_converter.py *)

Definition PPQ : Z := 480.

Definition time_to_tick (time_seconds bpm : Q) (ppq : Z) : Z :=
  let beats := time_seconds * bpm / 60 in
  py_int (beats * inject_Z ppq).

(** The divisions below are Q's total division (x / 0 = 0), whereas the
    Python code raises [ZeroDivisionError] at [ppq = 0] or [bpm = 0]. The
    model agrees with the code only for non-zero [ppq] and [bpm]; the
    theorems below whose conclusions depend on a value computed by
    [tick_to_time] assume [0 < bpm] and a positive [ppq]. *)
Definition tick_to_time (tick : Z) (bpm : Q) (ppq : Z) : Q :=
  let beats := inject_Z tick / inject_Z ppq in
  beats * 60 / bpm.

Record TimingConverter := {
  tc_bpm : Q;
  tc_ppq : Z;
  ticks_per_step : Z;
  ticks_per_bar : Z
}.

Definition mkTimingConverter (bpm : Q) (ppq : Z) : TimingConverter :=
  {| tc_bpm := bpm; tc_ppq := ppq;
     ticks_per_step := (ppq / 4)%Z; ticks_per_bar := (ppq * 4)%Z |}.

(** [tick / self.ticks_per_step] raises [ZeroDivisionError] when
    [ticks_per_step = ppq // 4] is 0 (ppq < 4); Q's total division gives 0
    there instead, so the theorems on [quantize_tick] take [ppq >= 4] (or
    the fixed [PPQ = 480]). *)
Definition quantize_tick (c : TimingConverter) (tick : Z) : Z * Z :=
  let step_index := py_round (inject_Z tick / inject_Z (ticks_per_step c)) in
  let quantized_tick := (step_index * ticks_per_step c)%Z in
  let deviation := (tick - quantized_tick)%Z in
  (quantized_tick, deviation).

(** ** analyzers/jamaican_bpm.py : the basic analysis *)

(** [np.diff] on a one-dimensional array; also the list comprehension
    [[times[i+1] - times[i] for i in range(len(times) - 1)]]. *)
Fixpoint np_diff (l : list Q) : list Q :=
  match l with
  | x :: ((y :: _) as rest) => (y - x) :: np_diff rest
  | _ => []
  end.

(** [librosa.frames_to_time(frames, sr=sr)] with librosa's default
    [hop_length=512] and no [n_fft] offset: [frames * 512 / sr]. *)
Definition frames_to_time (frames : list Z) (sr0 : Z) : list Q :=
  map (fun f => inject_Z (f * 512) / inject_Z sr0) frames.

(** [self.vintage_drift_threshold] *)
Definition vintage_drift_threshold : Q := 2 # 100.

Definition _calculate_tempo_drift (sr0 : Z) (beat_frames : list Z) : Outcome Q :=
  if (List.length beat_frames <? 3)%nat then Ok 0 else
  let beat_times := frames_to_time beat_frames sr0 in
  let intervals := np_diff beat_times in
  if (List.length intervals =? 0)%nat then Ok 0 else
  mean_interval <- np_mean intervals ;;
  if Qeq_bool mean_interval 0 then Ok 0 else
  std_interval <- np_std intervals ;;
  qdiv std_interval mean_interval.

Section Analyze.
  (** [librosa.beat.beat_track(y=y, sr=self.sr)]: the tempo (already as
      the float [bpm_detected]) and the beat frames. *)
Variable beat_track : list Q -> Z -> Q * list Z.

Definition analyze (sr0 : Z) (y : list Q) : Outcome BPMAnalysisResult :=
  let '(bpm_detected0, beat_frames) := beat_track y sr0 in
  tempo_drift0 <- _calculate_tempo_drift sr0 beat_frames ;;
  let is_vintage0 := Qltb vintage_drift_threshold tempo_drift0 in
  let '(style_initial, confidence0) := suggest_style_from_bpm bpm_detected0 in
  let '(bpm_corrected0, correction_type0) :=
    suggest_bpm_correction bpm_detected0 style_initial in
  let alternatives0 := _get_style_alternatives bpm_corrected0 in
  Ok {| bpm_detected := bpm_detected0;
        bpm_corrected := bpm_corrected0;
        style_suggested :=
          if String.eqb correction_type0 "none" then style_initial
          else fst (suggest_style_from_bpm bpm_corrected0);
        correction_type := correction_type0;
        confidence := confidence0;
        is_vintage := is_vintage0;
        tempo_drift := tempo_drift0;
        alternatives := alternatives0 |}.

(** The method [analyze_with_pattern] as a whole: [self.analyze(y)]
    followed by the body modelled by [analyze_with_pattern]. [None] is a
    raised [ZeroDivisionError]. *)
Definition analyze_with_pattern_audio (sr0 : Z) (y : list Q)
    (kick_times snare_times : list Q) (style_hint : option JamaicanStyle)
    : option BPMAnalysisResult :=
  match analyze sr0 y with
  | Ok result => analyze_with_pattern result kick_times snare_times style_hint
  | ZeroDivision => None
  end.
End Analyze.

(** ** models/onset_data.py *)

Record OnsetData := {
  time : Q;
  velocity : Z;
  instrument : string
}.

Record OnsetList := {
  onsets : list OnsetData;
  list_instrument : string
}.

(** [OnsetList.times] *)
Definition times (o : OnsetList) : list Q := map time (onsets o).

(** ** analyzers/swing_calculator.py : onsets and style ranges *)

Definition calculate_from_onsets (config : SwingConfig) (o : OnsetList)
    : Outcome SwingAnalysis :=
  let times0 := times o in
  if (List.length times0 <? 2)%nat then
    Ok (mkSwingAnalysis 50 1 false 0 "Datos insuficientes"%string)
  else
    let intervals := np_diff times0 in
    calculate_from_intervals config intervals.

(** [SWING_RANGES_BY_STYLE] of [models/swing_analysis.py], in insertion order. *)
Definition SWING_RANGES_BY_STYLE : list (JamaicanStyle * (Q * Q)) :=
  [(SKA, (50, 55)); (ROCKSTEADY, (52, 60)); (ONE_DROP, (55, 65));
   (ROCKERS, (50, 58)); (STEPPERS, (50, 55))].

(** [list.sort(key=lambda x: x[1])]: a stable sort by increasing key. *)
Fixpoint insert_asc (x : JamaicanStyle * Q) (l : list (JamaicanStyle * Q))
    : list (JamaicanStyle * Q) :=
  match l with
  | [] => [x]
  | y :: l' => if Qle_bool (snd y) (snd x) then y :: insert_asc x l' else x :: l
  end.

Definition sort_asc (l : list (JamaicanStyle * Q)) : list (JamaicanStyle * Q) :=
  fold_left (fun acc x => insert_asc x acc) l [].

Definition swing_compatible (swing : SwingAnalysis) (e : JamaicanStyle * (Q * Q)) : bool :=
  let '(_, (min_swing, max_swing)) := e in
  Qle_bool min_swing (swing_percentage swing) && Qle_bool (swing_percentage swing) max_swing.

Definition swing_distance (swing : SwingAnalysis) (e : JamaicanStyle * (Q * Q))
    : JamaicanStyle * Q :=
  let '(style, (min_swing, max_swing)) := e in
  let center := (min_swing + max_swing) / 2 in
  (style, Qabs (swing_percentage swing - center)).

Definition suggest_style_from_swing (swing : SwingAnalysis) : list JamaicanStyle :=
  let compatible :=
    map (swing_distance swing) (filter (swing_compatible swing) SWING_RANGES_BY_STYLE) in
  map fst (sort_asc compatible).

(** ** classifiers/hihat_classifier.py : temporal features *)

(** [np.max] on a one-dimensional array; [None] is the [ValueError] of an
    empty array. *)
Definition np_max (l : list Q) : option Q :=
  match l with
  | [] => None
  | x :: l' => Some (fold_left (fun m y => if Qltb m y then y else m) l' x)
  end.

(** The first index whose element satisfies [f]. *)
Fixpoint first_index (f : Q -> bool) (l : list Q) : option nat :=
  match l with
  | [] => None
  | x :: l' => if f x then Some 0%nat
               else match first_index f l' with
                    | Some i => Some (S i)
                    | None => None
                    end
  end.

(** [np.convolve(a, np.ones(m)/m, mode='same')] for [len(a) > m]: numpy
    correlates [a] with the reversed kernel, with [m // 2] positions of
    left overhang; output [i] sums [a[j] / m] over
    [i - m//2 <= j < i - m//2 + m], within [a]. *)
Definition np_convolve_same_box (a : list Q) (m : nat) : list Q :=
  let n_left := (m / 2)%nat in
  map (fun i =>
         let lo := (i - n_left)%nat in
         let hi := (i + m - n_left)%nat in
         Qsum (map (fun x => x * (1 / qnat m)) (firstn (hi - lo) (skipn lo a))))
    (seq 0 (List.length a)).

(** [_calculate_decay_time]; [None] is the [ValueError] of [np.max] on an
    empty segment. [np.argmax] is the first index holding the maximum. *)
Definition _calculate_decay_time (c : HiHatClassifier) (segment : list Q) : option Q :=
  let envelope := map Qabs segment in
  let window_size := py_int ((5 # 1000) * inject_Z (sr c)) in
  let envelope :=
    if (0 <? window_size)%Z && (window_size <? Z.of_nat (List.length envelope))%Z
    then np_convolve_same_box envelope (Z.to_nat window_size) else envelope in
  match np_max envelope with
  | None => None
  | Some peak_amplitude =>
      if Qeq_bool peak_amplitude 0 then Some 0 else
      let threshold := peak_amplitude * (1 # 10) in
      let peak_idx :=
        match first_index (fun x => Qeq_bool x peak_amplitude) envelope with
        | Some i => i
        | None => 0%nat
        end in
      match first_index (fun x => Qltb x threshold) (skipn peak_idx envelope) with
      | Some decay_samples => Some (qnat decay_samples / inject_Z (sr c))
      | None => Some ((qnat (List.length segment) - qnat peak_idx) / inject_Z (sr c))
      end
  end.

(** [_calculate_amp_at_time]; [np.sqrt] is [Qsqrt_approx], and the window
    is non-empty where its mean is taken. *)
Definition _calculate_amp_at_time (c : HiHatClassifier) (segment : list Q)
    (time_offset : Q) : Q :=
  let sample_idx := py_int (time_offset * inject_Z (sr c)) in
  let window_size := py_int ((10 # 1000) * inject_Z (sr c)) in
  let start := Z.max 0 (sample_idx - window_size / 2) in
  let end_ := Z.min (Z.of_nat (List.length segment)) (sample_idx + window_size / 2) in
  if (end_ <=? start)%Z || (Z.of_nat (List.length segment) <=? start)%Z then 0 else
  let window := py_slice segment start end_ in
  let squares := map (fun x => x * x) window in
  Qsqrt_approx (Qsum squares / qnat (List.length squares)).

Definition _calculate_temporal_centroid (c : HiHatClassifier) (segment : list Q) : Q :=
  let energy := map (fun x => x * x) segment in
  let total_energy := Qsum energy in
  if Qeq_bool total_energy 0 then 0 else
  let times0 := map (fun i => qnat i / inject_Z (sr c)) (seq 0 (List.length segment)) in
  let centroid := Qsum (map (fun p => fst p * snd p) (combine times0 energy)) / total_energy in
  centroid.

Section Features.
  (** The librosa spectral descriptors, averaged over the frames:
      [float(np.mean(librosa.feature.spectral_centroid(y=segment, sr=self.sr)))]
      and its bandwidth and flatness siblings. *)
Variable _calculate_spectral_centroid : HiHatClassifier -> list Q -> Q.
Variable _calculate_spectral_bandwidth : HiHatClassifier -> list Q -> Q.
Variable _calculate_spectral_flatness : HiHatClassifier -> list Q -> Q.

Definition _extract_features (c : HiHatClassifier) (segment : list Q) : option HiHatFeatures :=
  match _calculate_decay_time c segment with
  | None => None
  | Some decay_time0 =>
      let amp_100ms0 := _calculate_amp_at_time c segment (100 # 1000) in
      let temporal_centroid0 := _calculate_temporal_centroid c segment in
      Some {| decay_time := decay_time0;
              amp_100ms := amp_100ms0;
              temporal_centroid := temporal_centroid0;
              spectral_centroid := _calculate_spectral_centroid c segment;
              spectral_bandwidth := _calculate_spectral_bandwidth c segment;
              spectral_flatness := _calculate_spectral_flatness c segment |}
  end.
End Features.

(** ** models/timing_data.py : grid records *)

Definition STEPS_PER_BAR : Z := 16.

Record GridPosition := {
  bar : Z;
  step : Z
}.

Definition absolute_step (g : GridPosition) : Z :=
  ((bar g - 1) * STEPS_PER_BAR + step g)%Z.

Record TickData := {
  tick : Z;
  quantized_tick : Z;
  deviation_ticks : Z;
  deviation_ms : Q;
  grid_position : GridPosition
}.

Definition is_rushing (td : TickData) : bool := (deviation_ticks td <? 0)%Z.
Definition is_dragging (td : TickData) : bool := (0 <? deviation_ticks td)%Z.

Record BarData := {
  bar_number : Z;
  bar_ticks : list TickData;
  pattern : list Z;
  velocities : list Z
}.

(** [HumanizationStats] of [models/groove_data.py]. *)
Record HumanizationStats := {
  rushing_percent : Q;
  dragging_percent : Q;
  on_grid_percent : Q;
  avg_deviation_ms : Q;
  max_deviation_ms : Q
}.

(** ** converters/timing_converter.py : grid, tick data, bars *)

(** The methods [TimingConverter.time_to_tick] and [tick_to_time]. *)
Definition tc_time_to_tick (c : TimingConverter) (time_seconds : Q) : Z :=
  time_to_tick time_seconds (tc_bpm c) (tc_ppq c).

Definition tc_tick_to_time (c : TimingConverter) (tick0 : Z) : Q :=
  tick_to_time tick0 (tc_bpm c) (tc_ppq c).

(** [//] and [%] on Python ints are [Z.div] and [Z.modulo] (floor). Python
    raises [ZeroDivisionError] when [ticks_per_bar] or [ticks_per_step] is 0
    (ppq < 4), where [Z.div] and [Z.modulo] return 0 and the tick; the
    theorems on this function take a positive [ppq] that is a multiple of 4
    or at least 4. *)
Definition tick_to_grid_position (c : TimingConverter) (tick0 : Z) : GridPosition :=
  let bar0 := (tick0 / ticks_per_bar c + 1)%Z in
  let tick_in_bar := (tick0 mod ticks_per_bar c)%Z in
  let step0 := (tick_in_bar / ticks_per_step c + 1)%Z in
  let step0 := Z.max 1 (Z.min STEPS_PER_BAR step0) in
  {| bar := bar0; step := step0 |}.

Definition onset_to_tick_data (c : TimingConverter) (onset : OnsetData) : TickData :=
  let tick0 := tc_time_to_tick c (time onset) in
  let '(quantized_tick0, deviation_ticks0) := quantize_tick c tick0 in
  let grid_position0 := tick_to_grid_position c quantized_tick0 in
  let deviation_ms0 := tc_tick_to_time c (Z.abs deviation_ticks0) * 1000 in
  let deviation_ms0 := if (deviation_ticks0 <? 0)%Z then - deviation_ms0 else deviation_ms0 in
  {| tick := tick0;
     quantized_tick := quantized_tick0;
     deviation_ticks := deviation_ticks0;
     deviation_ms := deviation_ms0;
     grid_position := grid_position0 |}.

Definition onsets_to_tick_data (c : TimingConverter) (o : OnsetList) : list TickData :=
  map (onset_to_tick_data c) (onsets o).

(** Dataclass equality of [TickData] (floats compared with [==]). *)
Definition TickData_eqb (a b : TickData) : bool :=
  Z.eqb (tick a) (tick b) && Z.eqb (quantized_tick a) (quantized_tick b)
  && Z.eqb (deviation_ticks a) (deviation_ticks b)
  && Qeq_bool (deviation_ms a) (deviation_ms b)
  && Z.eqb (bar (grid_position a)) (bar (grid_position b))
  && Z.eqb (step (grid_position a)) (step (grid_position b)).

(** [list.index(x)]; [None] is the [ValueError] of a missing element. *)
Fixpoint py_index (td : TickData) (l : list TickData) : option nat :=
  match l with
  | [] => None
  | x :: l' => if TickData_eqb x td then Some 0%nat
               else match py_index td l' with
                    | Some i => Some (S i)
                    | None => None
                    end
  end.

(** [l[i] = v] for an index the caller has checked to be in range. *)
Fixpoint list_set {A : Type} (l : list A) (i : nat) (v : A) : list A :=
  match l, i with
  | [], _ => []
  | _ :: l', O => v :: l'
  | x :: l', S i' => x :: list_set l' i' v
  end.

(** One iteration of the loop [for td in bar_ticks]. *)
Definition fill_step (o : OnsetList) (tick_data_list : list TickData)
    (acc : option (list Z * list Z)) (td : TickData) : option (list Z * list Z) :=
  match acc with
  | None => None
  | Some (pattern0, velocities0) =>
      let step_idx := (step (grid_position td) - 1)%Z in
      if (0 <=? step_idx)%Z && (step_idx <? STEPS_PER_BAR)%Z then
        let pattern1 := list_set pattern0 (Z.to_nat step_idx) 1%Z in
        match py_index td tick_data_list with
        | None => None
        | Some onset_idx =>
            (* [if onset_idx < len(onsets.onsets)] *)
            match nth_error (onsets o) onset_idx with
            | Some onset =>
                Some (pattern1, list_set velocities0 (Z.to_nat step_idx) (velocity onset))
            | None => Some (pattern1, velocities0)
            end
        end
      else Some (pattern0, velocities0)
  end.

Definition bar_data_of (o : OnsetList) (tick_data_list : list TickData) (bar_num : Z)
    : option BarData :=
  let bar_ticks0 := filter (fun td => Z.eqb (bar (grid_position td)) bar_num) tick_data_list in
  let init := Some (repeat 0%Z (Z.to_nat STEPS_PER_BAR), repeat 0%Z (Z.to_nat STEPS_PER_BAR)) in
  match fold_left (fill_step o tick_data_list) bar_ticks0 init with
  | None => None
  | Some (pattern0, velocities0) =>
      Some {| bar_number := bar_num; bar_ticks := bar_ticks0;
              pattern := pattern0; velocities := velocities0 |}
  end.

Fixpoint option_all {A : Type} (l : list (option A)) : option (list A) :=
  match l with
  | [] => Some []
  | Some x :: l' => match option_all l' with Some xs => Some (x :: xs) | None => None end
  | None :: _ => None
  end.

(** [max(td.grid_position.bar for td in tick_data_list)] on a non-empty list. *)
Definition max_bar (tick_data_list : list TickData) : Z :=
  match tick_data_list with
  | [] => 0%Z
  | td :: rest =>
      fold_left (fun m t => Z.max m (bar (grid_position t))) rest (bar (grid_position td))
  end.

Definition onsets_to_bar_data (c : TimingConverter) (o : OnsetList) (num_bars : option Z)
    : option (list BarData) :=
  if (List.length (onsets o) =? 0)%nat then Some [] else
  let tick_data_list := onsets_to_tick_data c o in
  let num_bars0 := match num_bars with
                   | Some n => n
                   | None => max_bar tick_data_list
                   end in
  option_all (map (fun k => bar_data_of o tick_data_list (Z.of_nat k))
                  (seq 1 (Z.to_nat num_bars0))).

Definition count_true (f : Q -> bool) (l : list Q) : Q := qnat (List.length (filter f l)).

Definition get_humanization_stats (tick_data_list : list TickData) (tolerance_ms0 : Q)
    : HumanizationStats :=
  if (List.length tick_data_list =? 0)%nat then
    {| rushing_percent := 0; dragging_percent := 0; on_grid_percent := 0;
       avg_deviation_ms := 0; max_deviation_ms := 0 |}
  else
  let deviations := map deviation_ms tick_data_list in
  let rushing := count_true (fun d => Qltb d (- tolerance_ms0)) deviations in
  let dragging := count_true (fun d => Qltb tolerance_ms0 d) deviations in
  let on_grid := count_true (fun d => Qle_bool (Qabs d) tolerance_ms0) deviations in
  let total := qnat (List.length deviations) in
  let abs_devs := map Qabs deviations in
  {| rushing_percent := rushing / total * 100;
     dragging_percent := dragging / total * 100;
     on_grid_percent := on_grid / total * 100;
     avg_deviation_ms := Qsum abs_devs / total;
     max_deviation_ms :=
       match abs_devs with
       | [] => 0
       | d :: rest => fold_left py_max rest d
       end |}.

(** ** models/groove_data.py and groove_extractor.py : instrument data *)

Record GridMapping := {
  grid_pattern : list Z;
  grid_velocities : list Z;
  timing_deviations : list Q
}.

Record InstrumentData := {
  inst_name : string;
  inst_onsets : OnsetList;
  grids : list GridMapping;
  humanization : option HumanizationStats
}.

Record GrooveData := {
  song_name : string;
  groove_bpm : Q;
  groove_style : JamaicanStyle;
  swing : option SwingAnalysis;
  instruments : list (string * InstrumentData);
  groove_is_vintage : bool;
  groove_tempo_drift : Q;
  separated_drums_path : option string
}.

(** [d[k] = v] on a dict kept as an association list in insertion order:
    an existing key keeps its place, a new key goes last. *)
Fixpoint dict_set {A : Type} (d : list (string * A)) (k : string) (v : A)
    : list (string * A) :=
  match d with
  | [] => [(k, v)]
  | (k', v') :: d' => if String.eqb k' k then (k, v) :: d' else (k', v') :: dict_set d' k v
  end.

(** [d.get(k)] *)
Fixpoint dict_get {A : Type} (d : list (string * A)) (k : string) : option A :=
  match d with
  | [] => None
  | (k', v') :: d' => if String.eqb k' k then Some v' else dict_get d' k
  end.

Definition add_instrument (g : GrooveData) (instrument : InstrumentData) : GrooveData :=
  {| song_name := song_name g; groove_bpm := groove_bpm g; groove_style := groove_style g;
     swing := swing g;
     instruments := dict_set (instruments g) (inst_name instrument) instrument;
     groove_is_vintage := groove_is_vintage g; groove_tempo_drift := groove_tempo_drift g;
     separated_drums_path := separated_drums_path g |}.

(** One iteration of the loop [for td in bar_data.ticks] of
    [_add_instrument_data]. *)
Definition set_timing_dev (timing_devs : list Q) (td : TickData) : list Q :=
  let step_idx := (step (grid_position td) - 1)%Z in
  if (0 <=? step_idx)%Z && (step_idx <? 16)%Z
  then list_set timing_devs (Z.to_nat step_idx) (deviation_ms td)
  else timing_devs.

Definition grid_of (bar_data : BarData) : GridMapping :=
  {| grid_pattern := pattern bar_data;
     grid_velocities := velocities bar_data;
     timing_deviations := fold_left set_timing_dev (bar_ticks bar_data) (repeat 0 16) |}.

(** [GrooveExtractor._add_instrument_data], with [self.timing_converter]
    as [c] and [self.config.num_bars], [self.config.tolerance_ms] as
    [num_bars], [tolerance_ms0]; the groove updated in place is returned,
    and [None] is an exception raised on the way. *)
Definition _add_instrument_data (c : TimingConverter) (num_bars : option Z) (tolerance_ms0 : Q)
    (groove : GrooveData) (name : string) (o : OnsetList) : option GrooveData :=
  if (List.length (onsets o) =? 0)%nat then Some groove else
  let tick_data_list := onsets_to_tick_data c o in
  match onsets_to_bar_data c o num_bars with
  | None => None
  | Some bar_data_list =>
      let grids0 := map grid_of bar_data_list in
      let humanization0 := get_humanization_stats tick_data_list tolerance_ms0 in
      let inst_data := {| inst_name := name; inst_onsets := o; grids := grids0;
                          humanization := Some humanization0 |} in
      Some (add_instrument groove inst_data)
  end.

(** ** Example inputs and auxiliary orders *)

Definition conf_desc (a b : JamaicanStyle * Q) : Prop := snd b <= snd a.

Definition dist_asc (a b : JamaicanStyle * Q) : Prop := snd a <= snd b.

Definition onset_at (t : Q) : OnsetData :=
  {| time := t; velocity := 100; instrument := "hihat"%string |}.

Definition example_tick (dev : Z) (ms : Q) : TickData :=
  {| tick := (480 + dev)%Z; quantized_tick := 480; deviation_ticks := dev;
     deviation_ms := ms; grid_position := {| bar := 1; step := 5 |} |}.

Definition example_onsets : OnsetList :=
  {| onsets := [{| time := 0; velocity := 100; instrument := "kick"%string |};
                {| time := 13 # 10; velocity := 80; instrument := "kick"%string |};
                {| time := 5 # 2; velocity := 90; instrument := "kick"%string |}];
     list_instrument := "kick"%string |}.

Definition empty_groove : GrooveData :=
  {| song_name := "demo"%string; groove_bpm := 120; groove_style := ONE_DROP; swing := None;
     instruments := []; groove_is_vintage := false; groove_tempo_drift := 0;
     separated_drums_path := None |}.

(** * Specifications and proofs *)

(** ** Comparisons *)

Lemma Qltb_true (x y : Q) : Qltb x y = true <-> x < y.
Proof.
  unfold Qltb. rewrite negb_true_iff. split.
  - intros H. apply Qnot_le_lt. intros H'. apply Qle_bool_iff in H'. congruence.
  - intros H. destruct (Qle_bool y x) eqn:E; auto.
    apply Qle_bool_iff in E. exfalso. apply (Qlt_not_le x y); auto.
Qed.

Lemma Qltb_false (x y : Q) : Qltb x y = false <-> y <= x.
Proof.
  unfold Qltb. rewrite negb_false_iff. apply Qle_bool_iff.
Qed.

Lemma Qle_bool_false (x y : Q) : Qle_bool x y = false <-> y < x.
Proof.
  split.
  - intros H. apply Qnot_le_lt. intros H'. apply Qle_bool_iff in H'. congruence.
  - intros H. destruct (Qle_bool x y) eqn:E; auto.
    apply Qle_bool_iff in E. exfalso. apply (Qlt_not_le y x); auto.
Qed.

Ltac qbool :=
  repeat match goal with
  | H : Qltb _ _ = true |- _ => apply Qltb_true in H
  | H : Qltb _ _ = false |- _ => apply Qltb_false in H
  | H : Qle_bool _ _ = true |- _ => apply Qle_bool_iff in H
  | H : Qle_bool _ _ = false |- _ => apply Qle_bool_false in H
  | H : (_ && _)%bool = true |- _ => apply andb_true_iff in H; destruct H
  end.

(** ** The style table *)

(** The clamp formula of the BPM-range confidence, read off the
    specification: clamp(1 - |bpm - typical| / ((max - min) / 2), 0.5, 1.0). *)
Definition spec_confidence (r : StyleBPMRange) (bpm : Q) : Q :=
  Qmax (1 # 2) (Qmin 1 (1 - Qabs (bpm - typical_bpm r) / ((max_bpm r - min_bpm r) / 2))).

Lemma range_confidence_ge_half (r : StyleBPMRange) (bpm : Q) :
  1 # 2 <= range_confidence r bpm.
Proof. unfold range_confidence. apply Q.le_max_l. Qed.

Lemma table_ranges_wide (s : JamaicanStyle) (r : StyleBPMRange) :
  In (s, r) STYLE_BPM_RANGES -> Qltb 0 ((max_bpm r - min_bpm r) / 2) = true.
Proof.
  simpl. intros H.
  repeat (destruct H as [H | H]; [inversion H; subst; reflexivity | ]).
  contradiction.
Qed.

Lemma table_confidence_spec (s : JamaicanStyle) (r : StyleBPMRange) (bpm : Q) :
  In (s, r) STYLE_BPM_RANGES -> range_confidence r bpm = spec_confidence r bpm.
Proof.
  intros H. unfold range_confidence, spec_confidence. cbv zeta.
  rewrite (table_ranges_wide s r H). reflexivity.
Qed.

(** The loop of [suggest_style_from_bpm] keeps the best confidence seen
    so far, and the style it belongs to. *)
Lemma fold_suggest_invariant (bpm : Q) (l : list (JamaicanStyle * StyleBPMRange)) :
  forall acc,
  let res := fold_left (suggest_step bpm) l acc in
  snd acc <= snd res /\
  (res = acc \/ exists r, In (fst res, r) l /\ in_range r bpm = true /\
                          snd res = range_confidence r bpm) /\
  (forall s r, In (s, r) l -> in_range r bpm = true -> range_confidence r bpm <= snd res).
Proof.
  induction l as [| [s r] l IH]; intros [bs bc]; cbv zeta; simpl.
  - split; [apply Qle_refl | split; [left; reflexivity | intros; contradiction]].
  - destruct (in_range r bpm) eqn:Hin.
    + destruct (Qltb bc (range_confidence r bpm)) eqn:Hlt.
      * apply Qltb_true in Hlt.
        destruct (IH (s, range_confidence r bpm)) as [H1 [H2 H3]]; cbn [fst snd] in *.
        split; [apply Qlt_le_weak; apply Qlt_le_trans with (range_confidence r bpm); auto |].
        split.
        -- right. destruct H2 as [H2 | [r' [Hr1 [Hr2 Hr3]]]].
           ++ rewrite H2. exists r. simpl. auto.
           ++ exists r'. auto.
        -- intros s' r' [Heq | Hl] Hr.
           ++ injection Heq as <- <-. exact H1.
           ++ apply (H3 s' r' Hl Hr).
      * apply Qltb_false in Hlt.
        destruct (IH (bs, bc)) as [H1 [H2 H3]]; cbn [fst snd] in *.
        split; [auto |]. split.
        -- destruct H2 as [H2 | [r' [Hr1 [Hr2 Hr3]]]]; [left; auto | right; exists r'; auto].
        -- intros s' r' [Heq | Hl] Hr.
           ++ injection Heq as <- <-. apply Qle_trans with bc; [exact Hlt | exact H1].
           ++ apply (H3 s' r' Hl Hr).
    + destruct (IH (bs, bc)) as [H1 [H2 H3]]; cbn [fst snd] in *.
      split; [auto |]. split.
      * destruct H2 as [H2 | [r' [Hr1 [Hr2 Hr3]]]]; [left; auto | right; exists r'; auto].
      * intros s' r' [Heq | Hl] Hr.
        -- injection Heq as <- <-. congruence.
        -- apply (H3 s' r' Hl Hr).
Qed.

Lemma fold_suggest_none (bpm : Q) (l : list (JamaicanStyle * StyleBPMRange)) :
  forall acc, (forall s r, In (s, r) l -> in_range r bpm = false) ->
  fold_left (suggest_step bpm) l acc = acc.
Proof.
  induction l as [| [s r] l IH]; intros [bs bc] H; simpl; auto.
  rewrite (H s r (or_introl eq_refl)). apply IH. intros s' r' Hl. apply (H s' r'). right. exact Hl.
Qed.

(** Above 130 BPM only the ska range can match: the BPM-only guess is
    [SKA] or [UNKNOWN]. *)
Lemma suggest_above_130 (bpm : Q) :
  130 < bpm -> fst (suggest_style_from_bpm bpm) = SKA \/ fst (suggest_style_from_bpm bpm) = UNKNOWN.
Proof.
  intros Hb. unfold suggest_style_from_bpm.
  destruct (fold_suggest_invariant bpm STYLE_BPM_RANGES (UNKNOWN, 0))
    as [_ [[H | [r [Hr1 [Hr2 _]]]] _]].
  - rewrite H. auto.
  - destruct (fold_left (suggest_step bpm) STYLE_BPM_RANGES (UNKNOWN, 0)) as [s c].
    simpl in *. unfold in_range in Hr2. qbool.
    simpl in Hr1.
    repeat (destruct Hr1 as [Hr1 | Hr1];
            [inversion Hr1; subst; simpl in *; first [left; reflexivity | lra] | ]).
    contradiction.
Qed.

(** A basic analysis as [JamaicanBPMAnalyzer.analyze] returns it for a
    track tracked at 152 BPM. *)
Definition example_result : BPMAnalysisResult :=
  {| bpm_detected := 152; bpm_corrected := 152; style_suggested := SKA;
     correction_type := "none"%string; confidence := 1 # 2; is_vintage := false;
     tempo_drift := 0; alternatives := _get_style_alternatives 152 |}.

(** ** The BPM-only style guess *)

(** C4: [suggest_style_from_bpm] returns [(UNKNOWN, 0)] when no range of
    the fixed table contains [bpm]; otherwise it returns a style whose
    range contains [bpm], with the clamped confidence
    clamp(1 - |bpm - typical| / ((max - min) / 2), 0.5, 1.0) of that range,
    and no containing range has a greater confidence. At 76 BPM it returns
    [ONE_DROP] with confidence above 0.5; at 500 BPM it returns
    [(UNKNOWN, 0)]. *)
Theorem suggest_style_from_bpm_best (bpm : Q) :
  ((forall s r, In (s, r) STYLE_BPM_RANGES -> in_range r bpm = false) ->
     suggest_style_from_bpm bpm = (UNKNOWN, 0)) /\
  ((exists s r, In (s, r) STYLE_BPM_RANGES /\ in_range r bpm = true) ->
     exists r, In (fst (suggest_style_from_bpm bpm), r) STYLE_BPM_RANGES /\
       in_range r bpm = true /\
       snd (suggest_style_from_bpm bpm) == spec_confidence r bpm /\
       (forall s' r', In (s', r') STYLE_BPM_RANGES -> in_range r' bpm = true ->
          spec_confidence r' bpm <= snd (suggest_style_from_bpm bpm))) /\
  (fst (suggest_style_from_bpm 76) = ONE_DROP /\ 1 # 2 < snd (suggest_style_from_bpm 76)) /\
  suggest_style_from_bpm 500 = (UNKNOWN, 0).
Proof.
  split; [| split; [| split]].
  - intros H. unfold suggest_style_from_bpm. apply fold_suggest_none. exact H.
  - intros [s [r [Hr Hin]]]. unfold suggest_style_from_bpm.
    destruct (fold_suggest_invariant bpm STYLE_BPM_RANGES (UNKNOWN, 0)) as [_ [H2 H3]].
    cbv zeta in H2, H3.
    assert (Hge : 1 # 2 <= snd (fold_left (suggest_step bpm) STYLE_BPM_RANGES (UNKNOWN, 0))).
    { apply Qle_trans with (range_confidence r bpm);
        [apply range_confidence_ge_half | apply (H3 s r Hr Hin)]. }
    destruct H2 as [H2 | [r' [Hr1 [Hr2 Hr3]]]].
    + rewrite H2 in Hge. cbn [snd] in Hge. exfalso. unfold Qle in Hge. simpl in Hge. lia.
    + exists r'. split; [exact Hr1 |]. split; [exact Hr2 |]. split.
      * rewrite Hr3. rewrite (table_confidence_spec _ r' bpm Hr1). apply Qeq_refl.
      * intros s' r'' Hs' Hin'. rewrite <- (table_confidence_spec s' r'' bpm Hs').
        apply (H3 s' r'' Hs' Hin').
  - split; vm_compute; reflexivity.
  - vm_compute. reflexivity.
Qed.

(** ** Pattern-based refinement *)

(** C2: above 130 BPM, [refine_bpm_with_pattern] keeps the tempo of a
    [SKA] pattern ("none"), halves it for [ONE_DROP], [STEPPERS] and
    [ROCKERS] patterns ("halved"), and for an [UNKNOWN] pattern returns the
    BPM-only correction, both of the BPM-only guessed style and of
    [UNKNOWN]. At 152 BPM a [SKA] pattern gives 152 / "none" and a
    [ONE_DROP] pattern gives 76 / "halved". *)
Theorem refine_bpm_with_pattern_fast (bpm : Q) (base : BPMAnalysisResult) :
  130 < bpm ->
  (bpm_corrected (refine_bpm_with_pattern bpm SKA base) = bpm /\
   correction_type (refine_bpm_with_pattern bpm SKA base) = "none"%string) /\
  (forall ps, ps = ONE_DROP \/ ps = STEPPERS \/ ps = ROCKERS ->
     bpm_corrected (refine_bpm_with_pattern bpm ps base) == bpm / 2 /\
     correction_type (refine_bpm_with_pattern bpm ps base) = "halved"%string) /\
  ((bpm_corrected (refine_bpm_with_pattern bpm UNKNOWN base),
    correction_type (refine_bpm_with_pattern bpm UNKNOWN base))
     = suggest_bpm_correction bpm (fst (suggest_style_from_bpm bpm)) /\
   (bpm_corrected (refine_bpm_with_pattern bpm UNKNOWN base),
    correction_type (refine_bpm_with_pattern bpm UNKNOWN base))
     = suggest_bpm_correction bpm UNKNOWN) /\
  (bpm_corrected (refine_bpm_with_pattern 152 SKA base) == 152 /\
   correction_type (refine_bpm_with_pattern 152 SKA base) = "none"%string /\
   bpm_corrected (refine_bpm_with_pattern 152 ONE_DROP base) == 76 /\
   correction_type (refine_bpm_with_pattern 152 ONE_DROP base) = "halved"%string).
Proof.
  intros Hb.
  assert (Hb' : Qltb 130 bpm = true) by (apply Qltb_true; exact Hb).
  assert (Hn : Qltb bpm 60 = false) by (apply Qltb_false; lra).
  unfold refine_bpm_with_pattern. rewrite Hb'.
  split; [| split; [| split]].
  - split; reflexivity.
  - intros ps [-> | [-> | ->]]; split; reflexivity.
  - destruct (suggest_above_130 bpm Hb) as [-> | ->];
      unfold suggest_bpm_correction; simpl; rewrite ?Hn; simpl; split; reflexivity.
  - vm_compute. repeat split; reflexivity.
Qed.

Lemma refine_bpm_with_pattern_fast_witness :
  130 < 152 /\
  ((bpm_corrected (refine_bpm_with_pattern 152 SKA example_result) = 152 /\
    correction_type (refine_bpm_with_pattern 152 SKA example_result) = "none"%string) /\
   (forall ps, ps = ONE_DROP \/ ps = STEPPERS \/ ps = ROCKERS ->
      bpm_corrected (refine_bpm_with_pattern 152 ps example_result) == 152 / 2 /\
      correction_type (refine_bpm_with_pattern 152 ps example_result) = "halved"%string) /\
   ((bpm_corrected (refine_bpm_with_pattern 152 UNKNOWN example_result),
     correction_type (refine_bpm_with_pattern 152 UNKNOWN example_result))
      = suggest_bpm_correction 152 (fst (suggest_style_from_bpm 152)) /\
    (bpm_corrected (refine_bpm_with_pattern 152 UNKNOWN example_result),
     correction_type (refine_bpm_with_pattern 152 UNKNOWN example_result))
      = suggest_bpm_correction 152 UNKNOWN) /\
   (bpm_corrected (refine_bpm_with_pattern 152 SKA example_result) == 152 /\
    correction_type (refine_bpm_with_pattern 152 SKA example_result) = "none"%string /\
    bpm_corrected (refine_bpm_with_pattern 152 ONE_DROP example_result) == 76 /\
    correction_type (refine_bpm_with_pattern 152 ONE_DROP example_result) = "halved"%string)).
Proof.
  split; [reflexivity |].
  apply (refine_bpm_with_pattern_fast 152 example_result). reflexivity.
Defined.

(** C10: the style [detect_style_from_pattern] returns does not depend on
    the snare onsets: their beat positions are computed and never read. *)
Theorem detect_style_from_pattern_snare_independent
    (kick_times snares1 snares2 : list Q) (bpm : Q) :
  detect_style_from_pattern kick_times snares1 bpm
  = detect_style_from_pattern kick_times snares2 bpm.
Proof. reflexivity. Qed.

(** ** User style hint *)

Lemma style_eqb_true (a b : JamaicanStyle) : style_eqb a b = true <-> a = b.
Proof. destruct a, b; simpl; split; congruence. Qed.

Lemma style_mem_In (s : JamaicanStyle) (l : list JamaicanStyle) :
  style_mem s l = true <-> In s l.
Proof.
  unfold style_mem. rewrite existsb_exists. split.
  - intros [x [Hx Hs]]. apply style_eqb_true in Hs. subst. exact Hx.
  - intros H. exists s. split; [exact H | apply style_eqb_true; reflexivity].
Qed.

(** As the code has it: with a style hint other than [UNKNOWN],
    [analyze_with_pattern] returns the hint as the style with confidence
    0.9; it halves the tempo ("halved") exactly when the hint is one of
    [ONE_DROP], [ROCKERS], [STEPPERS], [DUB], [ROCKSTEADY] and the detected
    tempo is above 130 BPM, and otherwise, in particular for [SKA], keeps
    the detected tempo with "none". *)
Theorem analyze_with_pattern_style_hint (result : BPMAnalysisResult)
    (kick_times snare_times : list Q) (hint : JamaicanStyle) :
  hint <> UNKNOWN ->
  exists r, analyze_with_pattern result kick_times snare_times (Some hint) = Some r /\
    confidence r == 9 # 10 /\ style_suggested r = hint /\
    bpm_detected r = bpm_detected result /\
    (In hint hint_slow_styles -> 130 < bpm_detected result ->
       bpm_corrected r == bpm_detected result / 2 /\ correction_type r = "halved"%string) /\
    (hint = SKA ->
       bpm_corrected r = bpm_detected result /\ correction_type r = "none"%string) /\
    (~ In hint hint_slow_styles \/ bpm_detected result <= 130 ->
       bpm_corrected r = bpm_detected result /\ correction_type r = "none"%string).
Proof.
  intros Hu.
  assert (Hnu : style_eqb hint UNKNOWN = false).
  { destruct (style_eqb hint UNKNOWN) eqn:E; auto. apply style_eqb_true in E. contradiction. }
  exists (_apply_style_hint_correction result hint).
  unfold analyze_with_pattern. rewrite Hnu. simpl negb. cbv iota.
  split; [reflexivity |].
  unfold _apply_style_hint_correction.
  destruct (style_mem hint hint_slow_styles && Qltb 130 (bpm_detected result)) eqn:E.
  - apply andb_true_iff in E. destruct E as [E1 E2].
    apply style_mem_In in E1. apply Qltb_true in E2.
    split; [reflexivity | split; [reflexivity | split; [reflexivity | split; [| split]]]].
    + intros _ _. split; [apply Qeq_refl | reflexivity].
    + intros ->. simpl in E1. intuition discriminate.
    + intros [H | H]; [contradiction | lra].
  - assert (Hn : ~ (In hint hint_slow_styles /\ 130 < bpm_detected result)).
    { intros [H1 H2]. apply style_mem_In in H1. apply Qltb_true in H2.
      rewrite H1, H2 in E. discriminate. }
    destruct (style_eqb hint SKA);
      (split; [reflexivity | split; [reflexivity | split; [reflexivity | split; [| split]]]]);
      try (intros; split; reflexivity).
    all: intros H1 H2; exfalso; apply Hn; auto.
Qed.

Lemma analyze_with_pattern_style_hint_witness :
  ONE_DROP <> UNKNOWN /\
  exists r, analyze_with_pattern example_result [] [] (Some ONE_DROP) = Some r /\
    confidence r == 9 # 10 /\ style_suggested r = ONE_DROP /\
    bpm_detected r = bpm_detected example_result /\
    (In ONE_DROP hint_slow_styles -> 130 < bpm_detected example_result ->
       bpm_corrected r == bpm_detected example_result / 2 /\
       correction_type r = "halved"%string) /\
    (ONE_DROP = SKA ->
       bpm_corrected r = bpm_detected example_result /\ correction_type r = "none"%string) /\
    (~ In ONE_DROP hint_slow_styles \/ bpm_detected example_result <= 130 ->
       bpm_corrected r = bpm_detected example_result /\ correction_type r = "none"%string).
Proof.
  split; [discriminate |].
  apply (analyze_with_pattern_style_hint example_result [] [] ONE_DROP). discriminate.
Defined.

(** C3 (code bug): the set [slow_styles] of [_apply_style_hint_correction],
    commented as the styles that must never exceed 130 BPM, leaves out
    [ROOTS_REGGAE], whose range is 65-95 BPM and which the sibling
    [suggest_bpm_correction] halves above 130 BPM. So for every detection
    above 130 BPM, a [ROOTS_REGGAE] hint keeps the detected tempo with
    "none", where a slow-reggae hint is to halve it. *)
Theorem style_hint_roots_reggae_not_halved (result : BPMAnalysisResult)
    (kick_times snare_times : list Q) :
  130 < bpm_detected result ->
  ~ In ROOTS_REGGAE hint_slow_styles /\
  (exists r, In (ROOTS_REGGAE, r) STYLE_BPM_RANGES /\ max_bpm r <= 130) /\
  suggest_bpm_correction (bpm_detected result) ROOTS_REGGAE
    = (bpm_detected result / 2, "halved"%string) /\
  exists r, analyze_with_pattern result kick_times snare_times (Some ROOTS_REGGAE) = Some r /\
    style_suggested r = ROOTS_REGGAE /\ bpm_corrected r = bpm_detected result /\
    correction_type r = "none"%string.
Proof.
  intros Hb. split; [simpl; intuition discriminate |]. split.
  { eexists. split; [simpl; right; right; right; right; right; right; left; reflexivity |].
    simpl. discriminate. }
  split.
  - unfold suggest_bpm_correction. simpl.
    rewrite (proj2 (Qltb_true 130 _) Hb). reflexivity.
  - eexists. split; [reflexivity |].
    unfold _apply_style_hint_correction. simpl.
    repeat split; reflexivity.
Qed.

Lemma style_hint_roots_reggae_not_halved_witness :
  130 < bpm_detected example_result /\
  ~ In ROOTS_REGGAE hint_slow_styles /\
  (exists r, In (ROOTS_REGGAE, r) STYLE_BPM_RANGES /\ max_bpm r <= 130) /\
  suggest_bpm_correction (bpm_detected example_result) ROOTS_REGGAE
    = (bpm_detected example_result / 2, "halved"%string) /\
  exists r, analyze_with_pattern example_result [] [] (Some ROOTS_REGGAE) = Some r /\
    style_suggested r = ROOTS_REGGAE /\ bpm_corrected r = bpm_detected example_result /\
    correction_type r = "none"%string.
Proof.
  assert (H : 130 < bpm_detected example_result) by reflexivity.
  split; [exact H |].
  exact (style_hint_roots_reggae_not_halved example_result [] [] H).
Defined.

(** ** Python's [round] and [int] *)

Lemma Qltb_compat (x x' y y' : Q) : x == x' -> y == y' -> Qltb x y = Qltb x' y'.
Proof.
  intros Hx Hy. destruct (Qltb x y) eqn:E; symmetry.
  - apply Qltb_true. apply Qltb_true in E. rewrite <- Hx, <- Hy. exact E.
  - apply Qltb_false. apply Qltb_false in E. rewrite <- Hx, <- Hy. exact E.
Qed.

Lemma Qfloor_compat (x y : Q) : x == y -> Qfloor x = Qfloor y.
Proof.
  intros H. apply Z.le_antisymm; apply Qfloor_resp_le; rewrite H; apply Qle_refl.
Qed.

Lemma py_round_compat (x y : Q) : x == y -> py_round x = py_round y.
Proof.
  intros H. unfold py_round. rewrite (Qfloor_compat x y H).
  assert (Hr : x - inject_Z (Qfloor y) == y - inject_Z (Qfloor y)) by (rewrite H; reflexivity).
  rewrite (Qltb_compat _ _ (1 # 2) (1 # 2) Hr (Qeq_refl _)).
  rewrite (Qltb_compat (1 # 2) (1 # 2) _ _ (Qeq_refl _) Hr).
  reflexivity.
Qed.

Lemma py_round_Z (z : Z) : py_round (inject_Z z) = z.
Proof.
  unfold py_round. rewrite Qfloor_Z.
  assert (H : Qltb (inject_Z z - inject_Z z) (1 # 2) = true) by (apply Qltb_true; lra).
  rewrite H. reflexivity.
Qed.

(** [round] moves its argument by at most one half. *)
Lemma py_round_bounds (x : Q) :
  x - (1 # 2) <= inject_Z (py_round x) /\ inject_Z (py_round x) <= x + (1 # 2).
Proof.
  pose proof (Qfloor_le x) as H1. pose proof (Qlt_floor x) as H2.
  rewrite inject_Z_plus in H2. change (inject_Z 1) with 1 in H2. unfold py_round.
  destruct (Qltb (x - inject_Z (Qfloor x)) (1 # 2)) eqn:E1; qbool.
  - split; lra.
  - destruct (Qltb (1 # 2) (x - inject_Z (Qfloor x))) eqn:E2; qbool.
    + rewrite inject_Z_plus. change (inject_Z 1) with 1 in *. split; lra.
    + destruct (Z.even (Qfloor x)); [| rewrite inject_Z_plus];
        change (inject_Z 1) with 1 in *; split; lra.
Qed.

Lemma py_int_nonneg (x : Q) : 0 <= x -> py_int x = Qfloor x.
Proof.
  destruct x as [n d]. unfold Qle, py_int, Qfloor. simpl. intros H.
  apply Z.quot_div_nonneg; lia.
Qed.

(** ** Quantization to the sixteenth-note grid *)

(** C9: with PPQ = 480 the grid step is 120 ticks, and [quantize_tick]
    returns a multiple of 120 no farther from [tick] than any other
    multiple of 120 (a nearest one), with deviation [tick - quantized];
    quantizing that multiple again returns it with deviation 0. *)
Theorem quantize_tick_nearest_idempotent (bpm : Q) (tick : Z) :
  let c := mkTimingConverter bpm PPQ in
  ticks_per_step c = 120%Z /\
  (fst (quantize_tick c tick) mod 120 = 0)%Z /\
  (forall k, (Z.abs (tick - fst (quantize_tick c tick)) <= Z.abs (tick - 120 * k))%Z) /\
  snd (quantize_tick c tick) = (tick - fst (quantize_tick c tick))%Z /\
  quantize_tick c (fst (quantize_tick c tick)) = (fst (quantize_tick c tick), 0%Z).
Proof.
  cbv zeta. unfold quantize_tick. cbn [ticks_per_step mkTimingConverter PPQ fst snd].
  change ((PPQ / 4)%Z) with 120%Z.
  set (s := py_round (inject_Z tick / inject_Z 120)).
  destruct (py_round_bounds (inject_Z tick / inject_Z 120)) as [B1 B2].
  fold s in B1, B2.
  change (inject_Z tick / inject_Z 120) with (inject_Z tick * (1 # 120)) in B1, B2.
  assert (Z1 : (tick - 60 <= 120 * s)%Z).
  { rewrite Zle_Qle. unfold Z.sub. rewrite inject_Z_plus, inject_Z_opp, inject_Z_mult. change (inject_Z 60) with 60.
    change (inject_Z 120) with 120. lra. }
  assert (Z2 : (120 * s <= tick + 60)%Z).
  { rewrite Zle_Qle. rewrite inject_Z_plus, inject_Z_mult. change (inject_Z 60) with 60.
    change (inject_Z 120) with 120. lra. }
  split; [reflexivity |]. split; [| split; [| split]].
  - apply Z.mod_mul. discriminate.
  - intros k. destruct (Z.eq_dec k s) as [-> | Hk]; lia.
  - reflexivity.
  - assert (Hq : inject_Z (s * 120) / inject_Z 120 == inject_Z s).
    { rewrite inject_Z_mult. field. }
    rewrite (py_round_compat _ _ Hq), py_round_Z. f_equal. lia.
Qed.

(** ** Time and ticks *)

(** C8 (as the code has it): [time_to_tick] truncates [t * bpm / 60 * PPQ]
    with [int] (a floor for [t >= 0]); converting back with
    [tick_to_time] lands at most one tick's duration before [t]. *)
Theorem time_tick_roundtrip (t bpm : Q) :
  0 <= t -> 0 < bpm ->
  time_to_tick t bpm PPQ = Qfloor (t * bpm / 60 * inject_Z PPQ) /\
  0 <= t - tick_to_time (time_to_tick t bpm PPQ) bpm PPQ /\
  t - tick_to_time (time_to_tick t bpm PPQ) bpm PPQ < 60 / (bpm * inject_Z PPQ) /\
  Qabs (tick_to_time (time_to_tick t bpm PPQ) bpm PPQ - t) < 60 / (bpm * inject_Z PPQ).
Proof.
  intros Ht Hb.
  set (x := t * bpm / 60 * inject_Z PPQ).
  assert (Hx : 0 <= x).
  { unfold x. change (inject_Z PPQ) with 480.
    apply Qmult_le_0_compat; [| discriminate].
    apply Qmult_le_0_compat; [apply Qmult_le_0_compat; lra | discriminate]. }
  assert (Hk : time_to_tick t bpm PPQ = Qfloor x).
  { unfold time_to_tick. apply py_int_nonneg. exact Hx. }
  rewrite Hk. set (k := Qfloor x).
  pose proof (Qfloor_le x) as F1. pose proof (Qlt_floor x) as F2.
  rewrite inject_Z_plus in F2. change (inject_Z 1) with 1 in F2. fold k in F1, F2.
  assert (Hbnz : ~ bpm == 0) by (intros E; rewrite E in Hb; discriminate).
  set (u := 60 / (bpm * inject_Z PPQ)).
  assert (Hu : 0 < u).
  { unfold u. change (inject_Z PPQ) with 480.
    apply Qlt_shift_div_l; [apply Qmult_lt_0_compat; [exact Hb | reflexivity] | ].
    rewrite Qmult_0_l. reflexivity. }
  assert (Et : t == x * u).
  { unfold x, u. change (inject_Z PPQ) with 480. field. exact Hbnz. }
  assert (Ek : tick_to_time k bpm PPQ == inject_Z k * u).
  { unfold tick_to_time, u. change (inject_Z PPQ) with 480. field. exact Hbnz. }
  assert (Ed : t - tick_to_time k bpm PPQ == (x - inject_Z k) * u).
  { rewrite Et, Ek. ring. }
  assert (D1 : 0 <= (x - inject_Z k) * u).
  { apply Qmult_le_0_compat; lra. }
  assert (D2 : (x - inject_Z k) * u < u).
  { rewrite <- (Qmult_1_l u) at 2. apply Qmult_lt_r; [exact Hu | lra]. }
  split; [reflexivity |]. split; [| split].
  - rewrite Ed. exact D1.
  - rewrite Ed. exact D2.
  - assert (E2 : tick_to_time k bpm PPQ - t == - ((x - inject_Z k) * u)).
    { rewrite <- Ed. ring. }
    rewrite E2, Qabs_opp, Qabs_pos; [exact D2 | exact D1].
Qed.

Lemma time_tick_roundtrip_witness :
  0 <= 1 # 2 /\ 0 < 120 /\
  time_to_tick (1 # 2) 120 PPQ = Qfloor ((1 # 2) * 120 / 60 * inject_Z PPQ) /\
  0 <= (1 # 2) - tick_to_time (time_to_tick (1 # 2) 120 PPQ) 120 PPQ /\
  (1 # 2) - tick_to_time (time_to_tick (1 # 2) 120 PPQ) 120 PPQ < 60 / (120 * inject_Z PPQ) /\
  Qabs (tick_to_time (time_to_tick (1 # 2) 120 PPQ) 120 PPQ - (1 # 2))
    < 60 / (120 * inject_Z PPQ).
Proof.
  split; [discriminate | split; [reflexivity |]].
  apply (time_tick_roundtrip (1 # 2) 120); [discriminate | reflexivity].
Defined.

(** C8 fails as stated: [time_to_tick] truncates rather than rounds. At
    60 BPM, t = 1/640 s is 0.75 tick: [time_to_tick] gives 0 while
    round(t * bpm / 60 * PPQ) is 1. *)
Lemma time_to_tick_truncates :
  time_to_tick (1 # 640) 60 PPQ = 0%Z /\
  py_round ((1 # 640) * 60 / 60 * inject_Z PPQ) = 1%Z.
Proof. split; vm_compute; reflexivity. Qed.

(** ** Swing *)

(** The pair ratios and their mean as the specification words them:
    max(a, b) / (a + b) over the pairs (intervals[0], intervals[1]),
    (intervals[2], intervals[3]), ..., a trailing interval left out. *)
Fixpoint claim_pair_ratios (intervals : list Q) : list Q :=
  match intervals with
  | a :: b :: rest => Qmax a b / (a + b) :: claim_pair_ratios rest
  | _ => []
  end.

Definition claim_mean (intervals : list Q) : Q :=
  Qsum (claim_pair_ratios intervals) / qnat (List.length (claim_pair_ratios intervals)).

Lemma qdiv_ok (x y : Q) : ~ y == 0 -> qdiv x y = Ok (x / y).
Proof.
  intros H. unfold qdiv. destruct (Qeq_bool y 0) eqn:E; [| reflexivity].
  apply Qeq_bool_iff in E. contradiction.
Qed.

Lemma qnat_S (n : nat) : qnat (S n) == qnat n + 1.
Proof. unfold qnat. rewrite Nat2Z.inj_succ, <- Z.add_1_r, inject_Z_plus. reflexivity. Qed.

Lemma qnat_S_pos (n : nat) : 0 < qnat (S n).
Proof. unfold qnat, Qlt. simpl. lia. Qed.

Lemma qnat_S_nonzero (n : nat) : ~ qnat (S n) == 0.
Proof. intros H. pose proof (qnat_S_pos n) as P. rewrite H in P. discriminate. Qed.

Lemma np_mean_ok (x : Q) (l : list Q) :
  np_mean (x :: l) = Ok (Qsum (x :: l) / qnat (S (List.length l))).
Proof. unfold np_mean. apply qdiv_ok. apply qnat_S_nonzero. Qed.

Lemma np_std_ok (x : Q) (l : list Q) : exists s, np_std (x :: l) = Ok s.
Proof.
  unfold np_std. rewrite np_mean_ok. cbn [obind map]. rewrite np_mean_ok.
  eexists. reflexivity.
Qed.

Lemma Qsum_lt_length (x : Q) (l : list Q) :
  (forall r, In r (x :: l) -> r < 1) -> Qsum (x :: l) < qnat (S (List.length l)).
Proof.
  revert x. induction l as [| y l IH]; intros x H.
  - change (Qsum [x]) with (x + 0). change (qnat (S (List.length []))) with 1.
    assert (x < 1) by (apply H; left; reflexivity). lra.
  - change (Qsum (x :: y :: l)) with (x + Qsum (y :: l)).
    rewrite qnat_S.
    assert (Hx : x < 1) by (apply H; left; reflexivity).
    assert (Hl : Qsum (y :: l) < qnat (S (List.length l)))
      by (apply IH; intros r Hr; apply H; right; exact Hr).
    simpl List.length. lra.
Qed.

(** With positive intervals every pair contributes a ratio, the same
    value as max(a, b) / (a + b), strictly below 1. *)
Lemma swing_pair_ratios_pos (intervals : list Q) :
  (forall x, In x intervals -> 0 < x) ->
  exists rs, swing_pair_ratios intervals = Ok rs /\
    List.length rs = List.length (claim_pair_ratios intervals) /\
    Qsum rs == Qsum (claim_pair_ratios intervals) /\
    (forall r, In r rs -> r < 1).
Proof.
  remember (List.length intervals) as n eqn:En.
  assert (Hn : (List.length intervals <= n)%nat) by lia. clear En.
  revert intervals Hn. induction n as [| n IH]; intros intervals Hn Hpos;
    destruct intervals as [| a' [| b rest]].
  1, 2, 4, 5: exists []; split; [reflexivity | split; [reflexivity |
    split; [apply Qeq_refl | intros r []]]].
  - simpl in Hn. lia.
  - assert (Ha : 0 < a') by (apply Hpos; left; reflexivity).
    assert (Hb : 0 < b) by (apply Hpos; right; left; reflexivity).
    destruct (IH rest) as [rs [H1 [H2 [H3 H4]]]].
    { simpl in Hn. lia. }
    { intros x Hx. apply Hpos. right. right. exact Hx. }
    set (long := py_max a' b). set (short := py_min a' b).
    assert (Hls : long + short == a' + b /\ long == Qmax a' b).
    { unfold long, short, py_max, py_min.
      destruct (Qltb a' b) eqn:E1; destruct (Qltb b a') eqn:E2; qbool;
        split; try lra.
      all: first [rewrite Q.max_r; lra | rewrite Q.max_l; lra]. }
    destruct Hls as [Hsum Hmax].
    assert (Hlong : 0 < long) by (unfold long, py_max; destruct (Qltb a' b); assumption).
    assert (Hshort : 0 < short) by (unfold short, py_min; destruct (Qltb b a'); assumption).
    assert (Ht : Qltb 0 (long + short) = true) by (apply Qltb_true; lra).
    exists (long / (long + short) :: rs).
    simpl swing_pair_ratios. fold long short. rewrite Ht.
    rewrite qdiv_ok by lra. simpl obind. rewrite H1. simpl obind.
    split; [reflexivity |]. split; [simpl; rewrite H2; reflexivity |]. split.
    + simpl. rewrite H3, Hsum, Hmax. apply Qeq_refl.
    + intros r [<- | Hr]; [| apply H4; exact Hr].
      apply Qlt_shift_div_r; lra.
Qed.

(** C5: below [min_intervals] intervals [calculate_from_intervals] returns
    50 %, ratio 1, not swung, confidence 0 (and raises nothing). With the
    default configuration and at least 4 positive intervals it returns
    swing_percentage = 100 * the mean of max(a, b) / (a + b) over the
    consecutive pairs, is_swung exactly when that percentage exceeds 52,
    and swing_ratio 1 for a mean of at most 0.5, mean / (1 - mean)
    otherwise. Eight intervals of 0.25 s give 50 %, not swung. *)
Theorem calculate_from_intervals_spec :
  (forall config intervals, (List.length intervals < min_intervals config)%nat ->
     calculate_from_intervals config intervals
     = Ok (mkSwingAnalysis 50 1 false 0 "Datos insuficientes"%string) /\
     description (mkSwingAnalysis 50 1 false 0 "Datos insuficientes"%string)
     = "Datos insuficientes"%string) /\
  (forall intervals, (4 <= List.length intervals)%nat ->
     (forall x, In x intervals -> 0 < x) ->
     exists res, calculate_from_intervals default_swing_config intervals = Ok res /\
       swing_percentage res == 100 * claim_mean intervals /\
       (is_swung res = true <-> 52 < swing_percentage res) /\
       (claim_mean intervals <= 1 # 2 -> swing_ratio res == 1) /\
       (1 # 2 < claim_mean intervals ->
          swing_ratio res == claim_mean intervals / (1 - claim_mean intervals))) /\
  match calculate_from_intervals default_swing_config (repeat (1 # 4) 8) with
  | Ok res => swing_percentage res == 50 /\ is_swung res = false
  | ZeroDivision => False
  end.
Proof.
  split; [| split].
  - intros config intervals H. unfold calculate_from_intervals.
    apply Nat.ltb_lt in H. rewrite H. split; reflexivity.
  - intros intervals Hlen Hpos.
    destruct (swing_pair_ratios_pos intervals Hpos) as [rs [H1 [H2 [H3 H4]]]].
    unfold calculate_from_intervals. cbn [min_intervals default_swing_config].
    assert (Hl : (List.length intervals <? 4)%nat = false) by (apply Nat.ltb_ge; exact Hlen).
    rewrite Hl, H1. cbn [obind].
    destruct intervals as [| a [| b rest]]; [simpl in Hlen; lia | simpl in Hlen; lia |].
    destruct rs as [| r0 rs']; [simpl in H2; discriminate |].
    destruct (np_std_ok r0 rs') as [sd Hsd].
    rewrite np_mean_ok, Hsd. cbn [obind].
    set (m := Qsum (r0 :: rs') / qnat (S (List.length rs'))).
    assert (Hm : m == claim_mean (a :: b :: rest)).
    { unfold m, claim_mean. rewrite H3, <- H2. reflexivity. }
    assert (Hm1 : m < 1).
    { unfold m. apply Qlt_shift_div_r; [apply qnat_S_pos |].
      rewrite Qmult_1_l. apply Qsum_lt_length. exact H4. }
    destruct (Qle_bool m (1 # 2)) eqn:Em.
    + eexists. split; [reflexivity |]. cbn [swing_percentage swing_ratio is_swung mkSwingAnalysis].
      apply Qle_bool_iff in Em.
      split; [rewrite Hm; ring |]. split; [apply Qltb_true |].
      split; [intros _; apply Qeq_refl | intros H; rewrite <- Hm in H; lra].
    + rewrite qdiv_ok by lra. cbn [obind].
      eexists. split; [reflexivity |]. cbn [swing_percentage swing_ratio is_swung mkSwingAnalysis].
      apply Qle_bool_false in Em.
      split; [rewrite Hm; ring |]. split; [apply Qltb_true |].
      split; [intros H; rewrite <- Hm in H; lra | intros _; rewrite Hm; apply Qeq_refl].
  - vm_compute. split; reflexivity.
Qed.

(** C6 fails: with intervals [0, 1, 0, 1] both pair ratios are 1, the mean
    ratio is 1 > 0.5, and [swing_ratio = mean_ratio / (1 - mean_ratio)] is
    evaluated with the denominator 0. *)
Lemma swing_ratio_divides_by_zero :
  (exists rs m, swing_pair_ratios [0; 1; 0; 1] = Ok rs /\ np_mean rs = Ok m /\
     m == 1 /\ Qle_bool m (1 # 2) = false /\ 1 - m == 0) /\
  calculate_from_intervals default_swing_config [0; 1; 0; 1] = ZeroDivision.
Proof.
  split.
  - eexists. eexists. split; [reflexivity |]. split; [reflexivity |].
    vm_compute. repeat split; reflexivity.
  - vm_compute. reflexivity.
Qed.

(** ** Open / closed hi-hat *)

(** C7: [classify] answers [HH_UNKNOWN] with confidence 0 on a segment of
    fewer than 100 samples. Otherwise, with the features extracted from
    the segment: a decay under 0.100 s gives [CLOSED] with confidence
    min(1, 0.8 + 0.2 (1 - decay / 0.100)) >= 0.8; a decay over 0.200 s
    gives [OPEN] with confidence min(1, 0.8 + 0.2 min(1, (decay - 0.200) /
    0.200)) >= 0.8; in between, the score 0.40 decay_n + 0.25 amp_n + 0.20
    centroid_n + 0.15 flatness gives [OPEN] exactly when it exceeds 0.5,
    with confidence min(0.7, 0.5 + |score - 0.5|) <= 0.7. *)
Theorem classify_decision (extract : HiHatClassifier -> list Q -> HiHatFeatures)
    (sr0 : Z) (y : list Q) (onset_time : Q) :
  let c := mkHiHatClassifier sr0 in
  let segment := _extract_segment c y onset_time in
  let res := classify extract c y onset_time in
  ((List.length segment < 100)%nat ->
     hit_type res = HH_UNKNOWN /\ hh_confidence res == 0) /\
  ((100 <= List.length segment)%nat ->
     let f := extract c segment in
     let d := decay_time f in
     (d < 1 # 10 ->
        hit_type res = CLOSED /\
        hh_confidence res == Qmin 1 ((8 # 10) + (2 # 10) * (1 - d / (1 # 10))) /\
        8 # 10 <= hh_confidence res) /\
     (2 # 10 < d ->
        hit_type res = OPEN /\
        hh_confidence res == Qmin 1 ((8 # 10) + (2 # 10) * Qmin 1 ((d - (2 # 10)) / (2 # 10))) /\
        8 # 10 <= hh_confidence res) /\
     (1 # 10 <= d <= 2 # 10 ->
        let score := (4 # 10) * ((d - (1 # 10)) / (1 # 10))
                     + (25 # 100) * Qmin 1 (amp_100ms f / (1 # 10))
                     + (2 # 10) * Qmin 1 (temporal_centroid f / (15 # 100))
                     + (15 # 100) * spectral_flatness f in
        hit_type res = (if Qltb (1 # 2) score then OPEN else CLOSED) /\
        hh_confidence res == Qmin (7 # 10) ((1 # 2) + Qabs (score - (1 # 2))) /\
        hh_confidence res <= 7 # 10)).
Proof.
  cbv zeta. unfold classify.
  destruct (List.length (_extract_segment (mkHiHatClassifier sr0) y onset_time) <? 100)%nat
    eqn:Hlen.
  - split.
    + intros _. split; [reflexivity | apply Qeq_refl].
    + intros H. apply Nat.ltb_lt in Hlen. lia.
  - split; [intros H; apply Nat.ltb_ge in Hlen; lia | intros _].
    set (f := extract (mkHiHatClassifier sr0)
                (_extract_segment (mkHiHatClassifier sr0) y onset_time)).
    unfold _classify_from_features. cbn [thresholds mkHiHatClassifier default_thresholds
      decay_open decay_closed weight_decay weight_amp weight_temporal weight_spectral].
    set (d := decay_time f).
    split; [| split].
    + intros Hd.
      assert (E : Qltb d (100 # 1000) = true) by (apply Qltb_true; lra).
      rewrite E. cbn [hit_type hh_confidence]. split; [reflexivity |].
      assert (K : 100 # 1000 == 1 # 10) by reflexivity.
      split; [rewrite K; apply Qeq_refl |].
      apply Q.min_glb; [discriminate |].
      change (d / (100 # 1000)) with (d * (1000 # 100)). lra.
    + intros Hd.
      assert (E1 : Qltb d (100 # 1000) = false) by (apply Qltb_false; lra).
      assert (E2 : Qltb (200 # 1000) d = true) by (apply Qltb_true; lra).
      rewrite E1, E2. cbn [hit_type hh_confidence]. split; [reflexivity |].
      assert (K : 200 # 1000 == 2 # 10) by reflexivity.
      split; [rewrite K; apply Qeq_refl |].
      apply Q.min_glb; [discriminate |].
      assert (Hm : 0 <= Qmin 1 ((d - (200 # 1000)) / (200 # 1000))).
      { apply Q.min_glb; [discriminate |].
        change ((d - (200 # 1000)) / (200 # 1000)) with ((d - (200 # 1000)) * (1000 # 200)).
        lra. }
      lra.
    + intros [Hd1 Hd2].
      assert (E1 : Qltb d (100 # 1000) = false) by (apply Qltb_false; lra).
      assert (E2 : Qltb (200 # 1000) d = false) by (apply Qltb_false; lra).
      rewrite E1, E2.
      set (an := Qmin 1 (amp_100ms f / (1 # 10))).
      set (cn := Qmin 1 (temporal_centroid f / (15 # 100))).
      set (score := 0 + (d - (100 # 1000)) / ((200 # 1000) - (100 # 1000)) * (40 # 100)
                    + an * (25 # 100) + cn * (20 # 100) + spectral_flatness f * (15 # 100)).
      set (score' := (4 # 10) * ((d - (1 # 10)) / (1 # 10)) + (25 # 100) * an
                     + (2 # 10) * cn + (15 # 100) * spectral_flatness f).
      assert (Hs : score == score').
      { unfold score, score', Qdiv.
        assert (I1 : / ((200 # 1000) - (100 # 1000)) == 10) by reflexivity.
        rewrite I1. change (/ (1 # 10)) with (10 # 1). ring. }
      rewrite (Qltb_compat (1 # 2) (1 # 2) score score' (Qeq_refl _) Hs).
      destruct (Qltb (1 # 2) score') eqn:E3; cbn [hit_type hh_confidence];
        (split; [reflexivity | split; [| apply Q.le_min_l]]); qbool.
      * rewrite Qabs_pos by lra. rewrite Hs. apply Qeq_refl.
      * rewrite Qabs_neg by lra. rewrite Hs.
        assert (Hr : (1 # 2) + ((1 # 2) - score') == (1 # 2) + - (score' - (1 # 2))) by ring.
        rewrite Hr. apply Qeq_refl.
Qed.

(** ** Style from the kick pattern *)

(** The beat bucket of the specification: round((t / beat_duration) mod 4)
    mod 4 with beat_duration = 60 / bpm. *)
Definition claim_bucket (bpm t : Q) : Z :=
  Z.modulo (py_round (py_fmod (t / (60 / bpm)) 4)) 4.

(** The decision of the specification, over the kicks of the first four
    bars (t < 16 * 60 / bpm), counting the kicks of each bucket. *)
Definition claim_pattern_style (kick_times : list Q) (bpm : Q) : JamaicanStyle :=
  let ks := filter (fun t => Qltb t (16 * (60 / bpm))) kick_times in
  let n (k : Z) := qnat (List.length (filter (fun t => Z.eqb (claim_bucket bpm t) k) ks)) in
  let total := qnat (List.length ks) in
  if (List.length ks <? 2)%nat then UNKNOWN
  else if Qltb 0 (n 0%Z) && Qltb 0 (n 1%Z) && Qltb 0 (n 2%Z) && Qltb 0 (n 3%Z)
  then STEPPERS
  else if Qltb (6 # 10) (n 2%Z / total) && Qltb (n 0%Z / total) (2 # 10) then ONE_DROP
  else if Qltb (7 # 10) ((n 0%Z + n 2%Z) / total) then
    (if Qltb 110 bpm then SKA else ROCKERS)
  else UNKNOWN.

Lemma count_beat_positions (ks : list Q) (bpm tolerance : Q) (k : Z) :
  count_pos (_get_beat_positions ks bpm tolerance) k
  = List.length (filter (fun t => Z.eqb (claim_bucket bpm t) k) ks).
Proof.
  unfold count_pos, _get_beat_positions.
  induction ks as [| t ks IH]; [reflexivity |].
  cbn [map count_occ filter]. rewrite IH. unfold claim_bucket.
  destruct (Z.eq_dec (py_round (py_fmod (t / (60 / bpm)) 4) mod 4) k) as [E | E].
  - rewrite E, Z.eqb_refl. reflexivity.
  - apply Z.eqb_neq in E. rewrite E. reflexivity.
Qed.

Lemma length_beat_positions (ks : list Q) (bpm tolerance : Q) :
  List.length (_get_beat_positions ks bpm tolerance) = List.length ks.
Proof. unfold _get_beat_positions. apply length_map. Qed.

Lemma Qltb_0_qnat (k : nat) : Qltb 0 (qnat k) = (0 <? k)%nat.
Proof.
  destruct k as [| k].
  - reflexivity.
  - rewrite (proj2 (Qltb_true _ _) (qnat_S_pos k)). reflexivity.
Qed.

Lemma qnat_add (a b : nat) : qnat (a + b) == qnat a + qnat b.
Proof. unfold qnat. rewrite Nat2Z.inj_add, inject_Z_plus. reflexivity. Qed.

(** For [bpm > 0], [detect_style_from_pattern] decides, as the code has
    it: on the kicks before 16 beats, [UNKNOWN] for
    fewer than 2 of them; otherwise, bucketing each kick at
    round((t / beat_duration) mod 4) mod 4, [STEPPERS] when all four
    buckets are hit, else [ONE_DROP] when the bucket-2 fraction exceeds 0.6
    and the bucket-0 fraction is below 0.2, else [SKA] (bpm > 110) or
    [ROCKERS] when buckets 0 and 2 together exceed 0.7, else [UNKNOWN].
    The computed tolerance (15 % of a beat) takes no part in the
    bucketing. *)
Theorem detect_style_from_pattern_decision (kick_times snare_times : list Q) (bpm : Q) :
  0 < bpm ->
  detect_style_from_pattern kick_times snare_times bpm
  = Some (claim_pattern_style kick_times bpm).
Proof.
  intros Hb.
  assert (Hz : Qeq_bool bpm 0 = false).
  { destruct (Qeq_bool bpm 0) eqn:E; auto. apply Qeq_bool_iff in E.
    rewrite E in Hb. discriminate. }
  assert (Hf : filter (fun t => Qltb t (60 / bpm * 16)) kick_times
               = filter (fun t => Qltb t (16 * (60 / bpm))) kick_times).
  { apply filter_ext. intros t. apply Qltb_compat; [apply Qeq_refl | apply Qmult_comm]. }
  unfold detect_style_from_pattern, claim_pattern_style. rewrite Hz. cbv beta zeta.
  rewrite Hf.
  set (ks := filter (fun t => Qltb t (16 * (60 / bpm))) kick_times).
  destruct (List.length ks <? 2)%nat eqn:E2; [reflexivity |].
  apply Nat.ltb_ge in E2.
  rewrite !count_beat_positions, !length_beat_positions.
  set (n0 := List.length (filter (fun t => Z.eqb (claim_bucket bpm t) 0) ks)).
  set (n1 := List.length (filter (fun t => Z.eqb (claim_bucket bpm t) 1) ks)).
  set (n2 := List.length (filter (fun t => Z.eqb (claim_bucket bpm t) 2) ks)).
  set (n3 := List.length (filter (fun t => Z.eqb (claim_bucket bpm t) 3) ks)).
  set (total := List.length ks).
  assert (T0 : (total =? 0)%nat = false) by (apply Nat.eqb_neq; unfold total; lia).
  assert (T1 : (0 <? total)%nat = true) by (apply Nat.ltb_lt; unfold total; lia).
  rewrite T0, T1, !Qltb_0_qnat.
  cbn [forallb]. rewrite andb_true_r, !andb_assoc.
  destruct ((0 <? n0) && (0 <? n1) && (0 <? n2) && (0 <? n3))%nat; [reflexivity |].
  destruct (Qltb (6 # 10) (qnat n2 / qnat total) && Qltb (qnat n0 / qnat total) (2 # 10));
    [reflexivity |].
  assert (Hs : qnat (n0 + n2) / qnat total == (qnat n0 + qnat n2) / qnat total)
    by (rewrite qnat_add; reflexivity).
  rewrite (Qltb_compat _ _ _ _ (Qeq_refl (7 # 10)) Hs).
  destruct (Qltb (7 # 10) ((qnat n0 + qnat n2) / qnat total)); [| reflexivity].
  destruct (Qltb 110 bpm); reflexivity.
Qed.

Lemma detect_style_from_pattern_decision_witness :
  0 < 60 /\
  detect_style_from_pattern [0; 1; 2; 3] [] 60
  = Some (claim_pattern_style [0; 1; 2; 3] 60).
Proof.
  split; [reflexivity |].
  apply (detect_style_from_pattern_decision [0; 1; 2; 3] [] 60). reflexivity.
Defined.

Lemma off_beat_distance (t : Q) (m k : Z) :
  t == inject_Z m * (1 # 2) + (1 # 5) ->
  3 # 40 < Qabs (t - inject_Z k * (1 # 2)).
Proof.
  intros Ht. rewrite Ht.
  destruct (Z_le_gt_dec k m) as [H | H].
  - assert (Hq : inject_Z k <= inject_Z m) by (rewrite <- Zle_Qle; exact H).
    rewrite Qabs_pos by lra. lra.
  - assert (Hq : inject_Z (m + 1) <= inject_Z k) by (rewrite <- Zle_Qle; lia).
    rewrite inject_Z_plus in Hq. change (inject_Z 1) with 1 in Hq.
    rewrite Qabs_neg by lra. lra.
Qed.

(** C1 (code bug): [detect_style_from_pattern] computes
    [tolerance = beat_duration * 0.15] and passes it to
    [_get_beat_positions], whose docstring documents it, but the tolerance
    is never read: the beat positions are the same for every tolerance,
    and every kick is rounded onto a beat however far from it it lies. At
    120 BPM (beat 0.5 s, tolerance 0.075 s) kicks at 0.2 s and 1.2 s, i.e.
    0.4 beat after beats 1 and 3 and 0.2 s away from every beat, are
    bucketed on beats 1 and 3 and give [SKA], where the specification's
    +-15 % bucketing would bucket neither kick. *)
Theorem detect_style_from_pattern_ignores_tolerance :
  (forall (times : list Q) (bpm tol1 tol2 : Q),
     _get_beat_positions times bpm tol1 = _get_beat_positions times bpm tol2) /\
  (forall (t : Q) (k : Z), In t [1 # 5; 6 # 5] ->
     60 / 120 * (15 # 100) < Qabs (t - inject_Z k * (60 / 120))) /\
  _get_beat_positions [1 # 5; 6 # 5] 120 (60 / 120 * (15 # 100)) = [0%Z; 2%Z] /\
  detect_style_from_pattern [1 # 5; 6 # 5] [] 120 = Some SKA.
Proof.
  split; [reflexivity |]. split.
  - intros t k Hin.
    setoid_replace (60 / 120 * (15 # 100)) with (3 # 40) by reflexivity.
    setoid_replace (60 / 120) with (1 # 2) by reflexivity.
    destruct Hin as [<- | [<- | []]].
    + apply (off_beat_distance _ 0). reflexivity.
    + apply (off_beat_distance _ 2). reflexivity.
  - split; vm_compute; reflexivity.
Qed.

(** The decision on two concrete patterns at 152 BPM: kicks on every beat
    of a bar give [STEPPERS], kicks on beat 3 of four bars give [ONE_DROP]. *)
Example detect_steppers_example :
  detect_style_from_pattern [0; 60 # 152; 120 # 152; 180 # 152] [] 152 = Some STEPPERS.
Proof. vm_compute. reflexivity. Qed.

Example detect_one_drop_example :
  detect_style_from_pattern [120 # 152; 360 # 152; 600 # 152; 840 # 152]
    [120 # 152; 360 # 152] 152 = Some ONE_DROP.
Proof. vm_compute. reflexivity. Qed.

(** * Further properties of the modelled code *)

Lemma suggest_style_in_table (bpm : Q) :
  fst (suggest_style_from_bpm bpm) = UNKNOWN \/
  exists r, In (fst (suggest_style_from_bpm bpm), r) STYLE_BPM_RANGES /\ in_range r bpm = true.
Proof.
  unfold suggest_style_from_bpm.
  destruct (fold_suggest_invariant bpm STYLE_BPM_RANGES (UNKNOWN, 0))
    as [_ [[H | [r [Hr1 [Hr2 _]]]] _]].
  - left. rewrite H. reflexivity.
  - right. exists r. auto.
Qed.

Lemma correction_of_guess_none (bpm : Q) :
  suggest_bpm_correction bpm (fst (suggest_style_from_bpm bpm)) = (bpm, "none"%string).
Proof.
  destruct (suggest_style_in_table bpm) as [H | [r [Hr1 Hr2]]].
  - rewrite H. reflexivity.
  - destruct (fst (suggest_style_from_bpm bpm)) eqn:Es; clear Es;
    simpl in Hr1;
    repeat (destruct Hr1 as [Hr1 | Hr1]; [ discriminate Hr1 || (injection Hr1 as <-) | ]);
    try contradiction;
    unfold in_range in Hr2; simpl in Hr2; qbool;
    unfold suggest_bpm_correction; simpl;
    first [ rewrite (proj2 (Qltb_false 130 bpm)) by lra; reflexivity
          | rewrite (proj2 (Qltb_false bpm 60)) by lra; reflexivity
          | reflexivity ].
Qed.

(** X1: correcting a BPM with the style guessed from that same BPM never changes it: the correction is always (bpm, "none"). *)
Theorem suggest_bpm_correction_of_guess (bpm : Q) :
  suggest_bpm_correction bpm (fst (suggest_style_from_bpm bpm)) = (bpm, "none"%string).
Proof. exact (correction_of_guess_none bpm). Qed.

Lemma obind_ok {A B : Type} (a : A) (k : A -> Outcome B) : obind (Ok a) k = k a.
Proof. reflexivity. Qed.

Lemma Qsum_const (c : Q) (l : list Q) :
  Forall (fun x => x == c) l -> Qsum l == qnat (List.length l) * c.
Proof.
  induction l as [| x l IH]; intros H; [reflexivity |].
  inversion H as [| ? ? Hx Hl]; subst. cbn [Qsum fold_right List.length].
  fold (Qsum l). rewrite IH by exact Hl. rewrite qnat_S, Hx. ring.
Qed.

Lemma np_mean_const (c x : Q) (l : list Q) :
  Forall (fun y => y == c) (x :: l) -> exists m, np_mean (x :: l) = Ok m /\ m == c.
Proof.
  intros H. rewrite np_mean_ok. eexists. split; [reflexivity |].
  rewrite (Qsum_const c _ H). cbn [List.length].
  field. apply qnat_S_nonzero.
Qed.

Lemma Qsqrt_approx_zero (q : Q) : q == 0 -> Qsqrt_approx q == 0.
Proof.
  intros H. unfold Qeq in H. simpl in H. rewrite Z.mul_1_r in H.
  unfold Qsqrt_approx. rewrite H. reflexivity.
Qed.

Lemma np_std_const (c x : Q) (l : list Q) :
  Forall (fun y => y == c) (x :: l) -> exists s, np_std (x :: l) = Ok s /\ s == 0.
Proof.
  intros H. unfold np_std.
  destruct (np_mean_const c x l H) as [m [Hm Hmc]]. rewrite Hm. rewrite obind_ok.
  assert (H0 : Forall (fun y => y == 0) (map (fun y => (y - m) * (y - m)) (x :: l))).
  { apply Forall_map. apply Forall_impl with (2 := H). intros y Hy.
    rewrite Hy, Hmc. ring. }
  cbn [map] in H0 |- *.
  destruct (np_mean_const 0 _ _ H0) as [v [Hv Hv0]]. rewrite Hv, obind_ok.
  eexists. split; [reflexivity |]. apply Qsqrt_approx_zero. exact Hv0.
Qed.

Lemma np_diff_map_seq (g : nat -> Q) (k n : nat) :
  np_diff (map g (seq k (S n))) = map (fun i => g (S i) - g i) (seq k n).
Proof.
  revert k. induction n as [| n IH]; intros k; [reflexivity |].
  transitivity ((g (S k) - g k) :: np_diff (map g (seq (S k) (S n)))); [reflexivity |].
  rewrite IH. reflexivity.
Qed.

(** The drift of evenly spaced beat frames *)
Lemma tempo_drift_steady_beat (sr0 f0 d : Z) (n : nat) :
  (0 < sr0)%Z ->
  exists t, _calculate_tempo_drift sr0 (map (fun i => (f0 + Z.of_nat i * d)%Z) (seq 0 n)) = Ok t
            /\ t == 0.
Proof.
  intros Hsr. unfold _calculate_tempo_drift.
  rewrite length_map, length_seq.
  destruct (n <? 3)%nat eqn:En; [exists 0; split; reflexivity |].
  apply Nat.ltb_ge in En.
  unfold frames_to_time. rewrite map_map.
  destruct n as [| n]; [lia |].
  rewrite np_diff_map_seq.
  set (c := inject_Z (d * 512) / inject_Z sr0).
  assert (Hc : Forall (fun x => x == c)
    (map (fun i => inject_Z ((f0 + Z.of_nat (S i) * d) * 512) / inject_Z sr0
                 - inject_Z ((f0 + Z.of_nat i * d) * 512) / inject_Z sr0) (seq 0 n))).
  { apply Forall_forall. intros x Hx. apply in_map_iff in Hx. destruct Hx as [i [<- _]].
    unfold c. rewrite Nat2Z.inj_succ.
    assert (Hs : ~ inject_Z sr0 == 0).
    { intros E. unfold Qeq in E. simpl in E. lia. }
    unfold Z.succ. rewrite !inject_Z_mult, !inject_Z_plus, !inject_Z_mult, inject_Z_plus.
    field. exact Hs. }
  destruct n as [| m]; [lia |].
  cbn [seq map] in Hc |- *.
  cbn [List.length Nat.eqb].
  destruct (np_mean_const c _ _ Hc) as [mu [Hmu Hmuc]]. rewrite Hmu, obind_ok.
  destruct (Qeq_bool mu 0) eqn:E0; [exists 0; split; reflexivity |].
  destruct (np_std_const c _ _ Hc) as [s [Hs Hs0]]. rewrite Hs, obind_ok.
  assert (Hmu0 : ~ mu == 0) by (intros E; apply Qeq_bool_iff in E; congruence).
  rewrite qdiv_ok by exact Hmu0. eexists. split; [reflexivity |].
  rewrite Hs0. field. exact Hmu0.
Qed.

Lemma tempo_drift_ok (sr0 : Z) (beat_frames : list Z) :
  exists t, _calculate_tempo_drift sr0 beat_frames = Ok t.
Proof.
  unfold _calculate_tempo_drift.
  destruct (_ <? 3)%nat; [eexists; reflexivity |]. cbv zeta.
  destruct (np_diff (frames_to_time beat_frames sr0)) as [| x l]; [eexists; reflexivity |].
  cbn [List.length Nat.eqb]. rewrite np_mean_ok, obind_ok.
  destruct (Qeq_bool _ 0) eqn:E; [eexists; reflexivity |].
  destruct (np_std_ok x l) as [s Hs]. rewrite Hs, obind_ok.
  rewrite qdiv_ok; [eexists; reflexivity |].
  intros H. apply Qeq_bool_iff in H. congruence.
Qed.

Lemma analyze_ok_uncorrected (beat_track : list Q -> Z -> Q * list Z) (sr0 : Z) (y : list Q) :
  exists r, analyze beat_track sr0 y = Ok r /\
    bpm_detected r = fst (beat_track y sr0) /\
    bpm_corrected r = bpm_detected r /\
    correction_type r = "none"%string /\
    (style_suggested r, confidence r) = suggest_style_from_bpm (bpm_detected r) /\
    alternatives r = _get_style_alternatives (bpm_detected r).
Proof.
  unfold analyze. destruct (beat_track y sr0) as [b frames].
  destruct (tempo_drift_ok sr0 frames) as [t Ht]. rewrite Ht, obind_ok.
  pose proof (correction_of_guess_none b) as Hc.
  destruct (suggest_style_from_bpm b) as [s cf] eqn:Es. simpl in Hc. rewrite Hc.
  eexists. split; [reflexivity |].
  cbn [bpm_detected bpm_corrected correction_type style_suggested confidence alternatives].
  rewrite Es. repeat split; reflexivity.
Qed.

(** X2: [analyze] never raises and never corrects the tempo: bpm_corrected is the detected tempo, correction_type is "none", style and confidence are those of [suggest_style_from_bpm] and the alternatives are computed from the detected tempo. *)
Theorem analyze_no_bpm_correction (beat_track : list Q -> Z -> Q * list Z) (sr0 : Z) (y : list Q) :
  exists r, analyze beat_track sr0 y = Ok r /\
    bpm_detected r = fst (beat_track y sr0) /\
    bpm_corrected r = bpm_detected r /\
    correction_type r = "none"%string /\
    (style_suggested r, confidence r) = suggest_style_from_bpm (bpm_detected r) /\
    alternatives r = _get_style_alternatives (bpm_detected r).
Proof. exact (analyze_ok_uncorrected beat_track sr0 y). Qed.

(** X3: beat frames evenly spaced give a tempo drift of 0, so [analyze] never reports such a recording as vintage. *)
Theorem analyze_steady_beat_not_vintage (beat_track : list Q -> Z -> Q * list Z)
    (sr0 : Z) (y : list Q) (f0 d : Z) (n : nat) :
  (0 < sr0)%Z ->
  snd (beat_track y sr0) = map (fun i => (f0 + Z.of_nat i * d)%Z) (seq 0 n) ->
  exists r, analyze beat_track sr0 y = Ok r /\ tempo_drift r == 0 /\ is_vintage r = false.
Proof.
  intros Hsr Hb. unfold analyze. destruct (beat_track y sr0) as [b frames].
  simpl in Hb. subst frames.
  destruct (tempo_drift_steady_beat sr0 f0 d n Hsr) as [t [Ht Ht0]].
  rewrite Ht, obind_ok.
  destruct (suggest_style_from_bpm b) as [s cf].
  destruct (suggest_bpm_correction b s) as [bc ct].
  eexists. split; [reflexivity |]. cbn. split; [exact Ht0 |].
  apply Qltb_false. rewrite Ht0. unfold vintage_drift_threshold. discriminate.
Qed.

Lemma analyze_steady_beat_not_vintage_witness :
  (0 < 22050)%Z /\
  snd ((fun (_ : list Q) (_ : Z) => (120, [0; 10; 20; 30]%Z)) [] 22050%Z)
    = map (fun i => (0 + Z.of_nat i * 10)%Z) (seq 0 4) /\
  exists r, analyze (fun _ _ => (120, [0; 10; 20; 30]%Z)) 22050 [] = Ok r /\
    tempo_drift r == 0 /\ is_vintage r = false.
Proof.
  split; [reflexivity |]. split; [reflexivity |].
  apply (analyze_steady_beat_not_vintage (fun _ _ => (120, [0; 10; 20; 30]%Z)) 22050 [] 0 10 4);
    reflexivity.
Defined.

Lemma refine_bpm_halves_or_keeps_aux (bpm : Q) (ps : JamaicanStyle)
    (base : BPMAnalysisResult) :
  let r := refine_bpm_with_pattern bpm ps base in
  bpm_detected r = bpm /\ style_suggested r = ps /\
  ((bpm_corrected r = bpm /\ correction_type r = "none"%string) \/
   (bpm_corrected r = bpm / 2 /\ correction_type r = "halved"%string /\ 130 < bpm)).
Proof.
  cbv zeta. unfold refine_bpm_with_pattern.
  destruct (Qltb 130 bpm) eqn:Hb.
  - assert (Hb' := Hb). apply Qltb_true in Hb.
    assert (Hn : Qltb bpm 60 = false) by (apply Qltb_false; lra).
    destruct ps; unfold suggest_bpm_correction; cbn; rewrite ?Hb', ?Hn; cbn;
      (split; [reflexivity | split; [reflexivity | ]]);
      first [ left; split; reflexivity
            | right; split; [reflexivity | split; [reflexivity | exact Hb]] ].
  - cbn. split; [reflexivity | split; [reflexivity | left; auto]].
Qed.

(** X4: [refine_bpm_with_pattern] keeps the detected tempo and the pattern style, and either leaves the tempo unchanged ("none") or halves it ("halved"), the latter only above 130 BPM. *)
Theorem refine_bpm_with_pattern_halves_or_keeps (bpm : Q) (ps : JamaicanStyle)
    (base : BPMAnalysisResult) :
  let r := refine_bpm_with_pattern bpm ps base in
  bpm_detected r = bpm /\ style_suggested r = ps /\
  ((bpm_corrected r = bpm /\ correction_type r = "none"%string) \/
   (bpm_corrected r = bpm / 2 /\ correction_type r = "halved"%string /\ 130 < bpm)).
Proof. exact (refine_bpm_halves_or_keeps_aux bpm ps base). Qed.

Lemma detect_style_from_pattern_some (kick_times snare_times : list Q) (bpm : Q) :
  ~ bpm == 0 -> exists s, detect_style_from_pattern kick_times snare_times bpm = Some s.
Proof.
  intros Hb. unfold detect_style_from_pattern.
  destruct (Qeq_bool bpm 0) eqn:E; [apply Qeq_bool_iff in E; contradiction |].
  cbv zeta.
  repeat match goal with |- context [if ?b then _ else _] => destruct b end;
    eexists; reflexivity.
Qed.

(** X5: the whole [analyze_with_pattern] never raises, and its corrected tempo is the detected one or its half, halving only above 130 BPM; it never doubles. *)
Theorem analyze_with_pattern_audio_halves_or_keeps (beat_track : list Q -> Z -> Q * list Z)
    (sr0 : Z) (y : list Q) (kick_times snare_times : list Q)
    (style_hint : option JamaicanStyle) :
  exists r, analyze_with_pattern_audio beat_track sr0 y kick_times snare_times style_hint = Some r /\
    bpm_detected r = fst (beat_track y sr0) /\
    ((bpm_corrected r = bpm_detected r /\ correction_type r = "none"%string) \/
     (bpm_corrected r = bpm_detected r / 2 /\ correction_type r = "halved"%string /\
      130 < bpm_detected r)).
Proof.
  unfold analyze_with_pattern_audio.
  destruct (analyze_ok_uncorrected beat_track sr0 y)
    as [r0 [Ha [Hd [Hc [Ht _]]]]].
  rewrite Ha. unfold analyze_with_pattern.
  assert (Hpat : exists r, (if Qltb 130 (bpm_detected r0) && (0 <? List.length kick_times)%nat
       && (0 <? List.length snare_times)%nat then
      match detect_style_from_pattern kick_times snare_times (bpm_detected r0) with
      | Some pattern_style =>
          Some (refine_bpm_with_pattern (bpm_detected r0) pattern_style r0)
      | None => None
      end
    else Some r0) = Some r /\
    bpm_detected r = fst (beat_track y sr0) /\
    ((bpm_corrected r = bpm_detected r /\ correction_type r = "none"%string) \/
     (bpm_corrected r = bpm_detected r / 2 /\ correction_type r = "halved"%string /\
      130 < bpm_detected r))).
  { destruct (Qltb 130 (bpm_detected r0)) eqn:Hb; cbn [andb].
    - apply Qltb_true in Hb.
      destruct (_ && _)%bool.
      + destruct (detect_style_from_pattern_some kick_times snare_times (bpm_detected r0))
          as [ps Hps]; [intros E; rewrite E in Hb; discriminate |].
        rewrite Hps. eexists. split; [reflexivity |].
        destruct (refine_bpm_halves_or_keeps_aux (bpm_detected r0) ps r0)
          as [H1 [_ H3]].
        rewrite H1. split; [exact Hd |]. exact H3.
      + eexists. split; [reflexivity |]. split; [exact Hd |]. left. auto.
    - eexists. split; [reflexivity |]. split; [exact Hd |]. left. auto. }
  destruct style_hint as [h |]; [| exact Hpat].
  destruct (negb (style_eqb h UNKNOWN)); [| exact Hpat].
  eexists. split; [reflexivity |].
  unfold _apply_style_hint_correction. cbv zeta.
  destruct (style_mem h hint_slow_styles && Qltb 130 (bpm_detected r0))%bool eqn:E.
  - cbn. split; [exact Hd |]. right. qbool. auto.
  - destruct (style_eqb h SKA); cbn; (split; [exact Hd | left; auto]).
Qed.

(** ** Stable insertion sorts *)


Lemma insert_desc_perm (x : JamaicanStyle * Q) (l : list (JamaicanStyle * Q)) :
  Permutation (x :: l) (insert_desc x l).
Proof.
  induction l as [| y l IH]; simpl; [reflexivity |].
  destruct (Qle_bool (snd x) (snd y)); [| reflexivity].
  rewrite perm_swap. apply perm_skip. exact IH.
Qed.

Lemma insert_desc_sorted (x : JamaicanStyle * Q) (l : list (JamaicanStyle * Q)) :
  Sorted conf_desc l -> Sorted conf_desc (insert_desc x l).
Proof.
  induction l as [| y l IH]; intros H; simpl; [repeat constructor |].
  destruct (Qle_bool (snd x) (snd y)) eqn:E.
  - apply Qle_bool_iff in E. apply Sorted_inv in H as [Hl Hh].
    constructor; [apply IH; exact Hl |].
    destruct l as [| z l]; simpl; [constructor; exact E |].
    destruct (Qle_bool (snd x) (snd z)); constructor;
      [inversion Hh; assumption | exact E].
  - apply Qle_bool_false in E. constructor; [exact H | constructor].
    unfold conf_desc. apply Qlt_le_weak. exact E.
Qed.

Lemma sort_desc_spec (l : list (JamaicanStyle * Q)) :
  Permutation l (sort_desc l) /\ Sorted conf_desc (sort_desc l).
Proof.
  unfold sort_desc.
  assert (G : forall acc, Sorted conf_desc acc ->
     Permutation (l ++ acc) (fold_left (fun acc x => insert_desc x acc) l acc) /\
     Sorted conf_desc (fold_left (fun acc x => insert_desc x acc) l acc)).
  { induction l as [| x l IH]; intros acc Hs; simpl; [split; [reflexivity | exact Hs] |].
    destruct (IH (insert_desc x acc) (insert_desc_sorted x acc Hs)) as [P S].
    split; [| exact S].
    rewrite <- P. rewrite <- (insert_desc_perm x acc). apply Permutation_middle. }
  destruct (G [] (Sorted_nil _)) as [P S]. rewrite app_nil_r in P. auto.
Qed.

Lemma insert_asc_perm (x : JamaicanStyle * Q) (l : list (JamaicanStyle * Q)) :
  Permutation (x :: l) (insert_asc x l).
Proof.
  induction l as [| y l IH]; simpl; [reflexivity |].
  destruct (Qle_bool (snd y) (snd x)); [| reflexivity].
  rewrite perm_swap. apply perm_skip. exact IH.
Qed.

Lemma insert_asc_sorted (x : JamaicanStyle * Q) (l : list (JamaicanStyle * Q)) :
  Sorted dist_asc l -> Sorted dist_asc (insert_asc x l).
Proof.
  induction l as [| y l IH]; intros H; simpl; [repeat constructor |].
  destruct (Qle_bool (snd y) (snd x)) eqn:E.
  - apply Qle_bool_iff in E. apply Sorted_inv in H as [Hl Hh].
    constructor; [apply IH; exact Hl |].
    destruct l as [| z l]; simpl; [constructor; exact E |].
    destruct (Qle_bool (snd z) (snd x)); constructor;
      [inversion Hh; assumption | exact E].
  - apply Qle_bool_false in E. constructor; [exact H | constructor].
    unfold dist_asc. apply Qlt_le_weak. exact E.
Qed.

Lemma sort_asc_spec (l : list (JamaicanStyle * Q)) :
  Permutation l (sort_asc l) /\ Sorted dist_asc (sort_asc l).
Proof.
  unfold sort_asc.
  assert (G : forall acc, Sorted dist_asc acc ->
     Permutation (l ++ acc) (fold_left (fun acc x => insert_asc x acc) l acc) /\
     Sorted dist_asc (fold_left (fun acc x => insert_asc x acc) l acc)).
  { induction l as [| x l IH]; intros acc Hs; simpl; [split; [reflexivity | exact Hs] |].
    destruct (IH (insert_asc x acc) (insert_asc_sorted x acc Hs)) as [P S].
    split; [| exact S].
    rewrite <- P. rewrite <- (insert_asc_perm x acc). apply Permutation_middle. }
  destruct (G [] (Sorted_nil _)) as [P S]. rewrite app_nil_r in P. auto.
Qed.

Lemma NoDup_map_fst_filter {A B : Type} (f : A * B -> bool) (l : list (A * B)) :
  NoDup (map fst l) -> NoDup (map fst (filter f l)).
Proof.
  induction l as [| x l IH]; intros H; simpl; [constructor |].
  inversion H as [| ? ? Hx Hl]; subst.
  destruct (f x); simpl; [| apply IH; exact Hl].
  constructor; [| apply IH; exact Hl].
  intros Hin. apply Hx. apply in_map_iff in Hin. destruct Hin as [y [Hy Hf]].
  apply filter_In in Hf. apply in_map_iff. exists y. split; [exact Hy | apply Hf].
Qed.

(** X6: [_get_style_alternatives] lists exactly the styles whose BPM range contains the tempo, each once with its confidence, by decreasing confidence, and every confidence lies in [0.3, 1]. *)
Theorem style_alternatives_spec (bpm : Q) :
  Sorted (fun a b => snd b <= snd a) (_get_style_alternatives bpm) /\
  NoDup (map fst (_get_style_alternatives bpm)) /\
  (forall s c, In (s, c) (_get_style_alternatives bpm) <->
     exists r, In (s, r) STYLE_BPM_RANGES /\ in_range r bpm = true /\
               c = alternative_confidence r bpm) /\
  (forall s c, In (s, c) (_get_style_alternatives bpm) -> 3 # 10 <= c <= 1).
Proof.
  unfold _get_style_alternatives.
  set (l := map _ _).
  destruct (sort_desc_spec l) as [P S].
  assert (Hin : forall s c, In (s, c) (sort_desc l) <->
     exists r, In (s, r) STYLE_BPM_RANGES /\ in_range r bpm = true /\
               c = alternative_confidence r bpm).
  { intros s c. split.
    - intros H. apply (Permutation_in _ (Permutation_sym P)) in H.
      unfold l in H. apply in_map_iff in H. destruct H as [[s' r] [Heq Hf]].
      apply filter_In in Hf. destruct Hf as [Hf Hr]. cbn in Heq, Hr.
      injection Heq as <- <-. exists r. auto.
    - intros [r [Hr [Hb ->]]]. apply (Permutation_in _ P).
      unfold l. apply in_map_iff. exists (s, r). split; [reflexivity |].
      apply filter_In. auto. }
  split; [exact S |]. split.
  { apply (Permutation_NoDup (Permutation_map fst P)).
    unfold l. rewrite map_map. apply NoDup_map_fst_filter.
    simpl. repeat constructor; simpl; intuition discriminate. }
  split; [exact Hin |].
  intros s c H. apply Hin in H. destruct H as [r [_ [_ ->]]].
  unfold alternative_confidence. cbv zeta.
  split; [apply Q.le_max_l |].
  apply Q.max_lub; [discriminate | apply Q.le_min_l].
Qed.


(** X7: [suggest_style_from_swing] lists, without repetition, exactly the styles whose swing range contains the swing percentage, by increasing distance to the middle of the range. *)
Theorem suggest_style_from_swing_spec (swing : SwingAnalysis) :
  exists l, suggest_style_from_swing swing = map fst l /\
    Sorted (fun a b => snd a <= snd b) l /\
    NoDup (map fst l) /\
    (forall s d, In (s, d) l <->
       exists min_swing max_swing, In (s, (min_swing, max_swing)) SWING_RANGES_BY_STYLE /\
         min_swing <= swing_percentage swing <= max_swing /\
         d = Qabs (swing_percentage swing - (min_swing + max_swing) / 2)).
Proof.
  unfold suggest_style_from_swing.
  set (l := map (swing_distance swing) (filter (swing_compatible swing) SWING_RANGES_BY_STYLE)).
  destruct (sort_asc_spec l) as [P S].
  exists (sort_asc l). split; [reflexivity |]. split; [exact S |]. split.
  - apply (Permutation_NoDup (Permutation_map fst P)).
    unfold l. rewrite map_map.
    assert (E : map (fun x => fst (swing_distance swing x))
                  (filter (swing_compatible swing) SWING_RANGES_BY_STYLE)
              = map fst (filter (swing_compatible swing) SWING_RANGES_BY_STYLE)).
    { apply map_ext. intros [s [lo hi]]. reflexivity. }
    rewrite E. apply NoDup_map_fst_filter.
    simpl. repeat constructor; simpl; intuition discriminate.
  - intros s d. split.
    + intros H. apply (Permutation_in _ (Permutation_sym P)) in H.
      unfold l in H. apply in_map_iff in H. destruct H as [[s' [lo hi]] [Heq Hf]].
      apply filter_In in Hf. destruct Hf as [Hf Hc]. cbn in Heq, Hc.
      injection Heq as <- <-. qbool. exists lo, hi. auto.
    + intros [lo [hi [Hr [[H1 H2] ->]]]]. apply (Permutation_in _ P).
      unfold l. apply in_map_iff. exists (s, (lo, hi)). split; [reflexivity |].
      apply filter_In. split; [exact Hr |]. cbn.
      apply andb_true_iff. split; apply Qle_bool_iff; assumption.
Qed.

(** ** Swing from onsets *)

Lemma np_diff_length (l : list Q) : List.length (np_diff l) = (List.length l - 1)%nat.
Proof.
  induction l as [| x [| y l] IH]; [reflexivity | reflexivity |].
  change (np_diff (x :: y :: l)) with ((y - x) :: np_diff (y :: l)).
  cbn [List.length] in *. rewrite IH. lia.
Qed.

Lemma py_max_min_cases (a b : Q) :
  (py_max a b == a /\ py_min a b == b /\ b <= a) \/
  (py_max a b == b /\ py_min a b == a /\ a <= b).
Proof.
  unfold py_max, py_min.
  destruct (Qltb a b) eqn:E1; destruct (Qltb b a) eqn:E2; qbool.
  - lra.
  - right. split; [reflexivity | split; [reflexivity | lra]].
  - left. split; [reflexivity | split; [reflexivity | lra]].
  - left. split; [reflexivity | split; [apply Qle_antisym; assumption | lra]].
Qed.

Lemma swing_pair_ratios_nonneg (intervals : list Q) :
  Forall (fun x => 0 <= x) intervals ->
  exists rs, swing_pair_ratios intervals = Ok rs /\ Forall (fun r => 1 # 2 <= r <= 1) rs.
Proof.
  remember (List.length intervals) as n eqn:En.
  assert (Hn : (List.length intervals <= n)%nat) by lia. clear En.
  revert intervals Hn. induction n as [| n IH]; intros intervals Hn Hpos;
    destruct intervals as [| a [| b rest]];
    try (exists []; split; [reflexivity | constructor]).
  - simpl in Hn. lia.
  - inversion Hpos as [| ? ? Ha Hpos']; subst.
    inversion Hpos' as [| ? ? Hb Hrest]; subst.
    destruct (IH rest) as [rs [H1 H2]]; [simpl in Hn; lia | exact Hrest |].
    simpl swing_pair_ratios.
    destruct (Qltb 0 (py_max a b + py_min a b)) eqn:Ht; [| exists rs; auto].
    apply Qltb_true in Ht. rewrite qdiv_ok by lra. simpl obind. rewrite H1. simpl obind.
    eexists. split; [reflexivity |]. constructor; [| exact H2].
    destruct (py_max_min_cases a b) as [[E1 [E2 E3]] | [E1 [E2 E3]]];
      rewrite E1, E2 in *; split;
      first [ apply Qle_shift_div_l; lra | apply Qle_shift_div_r; lra ].
Qed.

Lemma swing_pair_ratios_even (d : Q) (intervals : list Q) :
  0 < d -> Forall (fun x => x == d) intervals ->
  exists rs, swing_pair_ratios intervals = Ok rs /\ Forall (fun r => r == 1 # 2) rs /\
    List.length rs = Nat.div2 (List.length intervals).
Proof.
  intros Hd Hpos.
  assert (G : forall n l, (List.length l <= n)%nat -> Forall (fun x => x == d) l ->
    exists rs, swing_pair_ratios l = Ok rs /\ Forall (fun r => r == 1 # 2) rs /\
      List.length rs = Nat.div2 (List.length l)).
  { induction n as [| n IH]; intros l Hn Hl;
      destruct l as [| a [| b rest]];
      try (exists []; split; [reflexivity | split; [constructor | reflexivity]]).
    - simpl in Hn. lia.
    - inversion Hl as [| ? ? Ha Hl']; subst.
      inversion Hl' as [| ? ? Hb Hrest]; subst.
      destruct (IH rest) as [rs [H1 [H2 H3]]]; [simpl in Hn; lia | exact Hrest |].
      simpl swing_pair_ratios.
      assert (Hm : py_max a b == d /\ py_min a b == d).
      { destruct (py_max_min_cases a b) as [[E1 [E2 _]] | [E1 [E2 _]]];
          rewrite E1, E2; auto. }
      destruct Hm as [Hm1 Hm2].
      assert (Ht : Qltb 0 (py_max a b + py_min a b) = true)
        by (apply Qltb_true; rewrite Hm1, Hm2; lra).
      rewrite Ht. rewrite qdiv_ok by (rewrite Hm1, Hm2; lra). simpl obind.
      rewrite H1. simpl obind.
      eexists. split; [reflexivity |]. split.
      + constructor; [| exact H2]. rewrite Hm1, Hm2. field. lra.
      + simpl. rewrite H3. reflexivity. }
  exact (G _ intervals (le_n _) Hpos).
Qed.

Lemma Qsum_bounds (a b : Q) (l : list Q) :
  Forall (fun x => a <= x <= b) l ->
  qnat (List.length l) * a <= Qsum l <= qnat (List.length l) * b.
Proof.
  induction l as [| x l IH]; intros H; [split; unfold Qle; simpl; lia |].
  inversion H as [| ? ? Hx Hl]; subst.
  destruct (IH Hl) as [H1 H2].
  change (Qsum (x :: l)) with (x + Qsum l). cbn [List.length]. rewrite qnat_S.
  split; lra.
Qed.

Lemma Qsqrt_approx_nonneg (q : Q) : 0 <= Qsqrt_approx q.
Proof.
  unfold Qsqrt_approx, Qle. simpl. rewrite Z.mul_1_r. apply Z.sqrt_nonneg.
Qed.

Lemma np_std_nonneg (l : list Q) (s : Q) : np_std l = Ok s -> 0 <= s.
Proof.
  unfold np_std. destruct (np_mean l); [| discriminate]. simpl.
  destruct (np_mean _); [| discriminate]. simpl. intros H. injection H as <-.
  apply Qsqrt_approx_nonneg.
Qed.

(** X8: on non-negative intervals, a result of [calculate_from_intervals] has a swing percentage in [50, 100], a ratio of at least 1 and a confidence in [0, 1]. *)
Theorem calculate_from_intervals_nonneg_bounds (config : SwingConfig) (intervals : list Q) :
  Forall (fun x => 0 <= x) intervals ->
  match calculate_from_intervals config intervals with
  | Ok a => 50 <= swing_percentage a <= 100 /\ 1 <= swing_ratio a /\
            0 <= swing_confidence a <= 1
  | ZeroDivision => True
  end.
Proof.
  intros Hnn. unfold calculate_from_intervals.
  destruct (_ <? _)%nat; [simpl; lra |].
  destruct (swing_pair_ratios_nonneg intervals Hnn) as [rs [Hrs Hb]].
  rewrite Hrs. simpl obind.
  destruct rs as [| r rs']; [simpl; lra |].
  rewrite np_mean_ok. cbn [obind].
  destruct (np_std_ok r rs') as [s Hs]. rewrite Hs. cbn [obind].
  pose proof (np_std_nonneg _ _ Hs) as Hs0.
  set (m := Qsum (r :: rs') / qnat (S (List.length rs'))).
  assert (Hm : 1 # 2 <= m <= 1).
  { destruct (Qsum_bounds _ _ _ Hb) as [B1 B2]. cbn [List.length] in B1, B2.
    pose proof (qnat_S_pos (List.length rs')) as P.
    unfold m. split.
    - apply Qle_shift_div_l; [exact P | lra].
    - apply Qle_shift_div_r; [exact P | lra]. }
  destruct (Qle_bool m (1 # 2)) eqn:Em.
  - simpl. unfold mkSwingAnalysis. cbn [swing_percentage swing_ratio swing_confidence].
    split; [lra |]. split; [lra |].
    split; [apply Q.le_max_l | apply Q.max_lub; [discriminate |]].
    assert (0 <= Qmin 1 (s * 10)) by (apply Q.min_glb; lra). lra.
  - apply Qle_bool_false in Em. unfold qdiv.
    destruct (Qeq_bool (1 - m) 0) eqn:Ez; [exact I |].
    assert (Hz : ~ 1 - m == 0) by (intros E; apply Qeq_bool_iff in E; congruence).
    simpl. unfold mkSwingAnalysis. cbn [swing_percentage swing_ratio swing_confidence].
    split; [lra |]. split.
    + assert (Hlt : 0 < 1 - m) by (destruct Hm; assert (~ m == 1) by (intros E; apply Hz; rewrite E; reflexivity); lra).
      apply Qle_shift_div_l; [exact Hlt | lra].
    + split; [apply Q.le_max_l | apply Q.max_lub; [discriminate |]].
      assert (0 <= Qmin 1 (s * 10)) by (apply Q.min_glb; lra). lra.
Qed.

Lemma calculate_from_intervals_nonneg_bounds_witness :
  Forall (fun x => 0 <= x) [1#4; 1#8; 1#4; 1#8] /\
  match calculate_from_intervals default_swing_config [1#4; 1#8; 1#4; 1#8] with
  | Ok a => 50 <= swing_percentage a <= 100 /\ 1 <= swing_ratio a /\
            0 <= swing_confidence a <= 1
  | ZeroDivision => True
  end.
Proof.
  assert (H : Forall (fun x => 0 <= x) [1#4; 1#8; 1#4; 1#8])
    by (repeat constructor; discriminate).
  split; [exact H |].
  exact (calculate_from_intervals_nonneg_bounds default_swing_config _ H).
Defined.

(** X9: with no more onsets than the minimum number of intervals, [calculate_from_onsets] returns the straight default result (50 percent, ratio 1, not swung, confidence 0, "Datos insuficientes"). *)
Theorem calculate_from_onsets_insufficient (config : SwingConfig) (o : OnsetList) :
  (List.length (onsets o) <= min_intervals config)%nat ->
  calculate_from_onsets config o =
    Ok (mkSwingAnalysis 50 1 false 0 "Datos insuficientes"%string).
Proof.
  intros Hn. unfold calculate_from_onsets, times.
  destruct (_ <? 2)%nat eqn:E; [reflexivity |].
  unfold calculate_from_intervals. rewrite np_diff_length, length_map.
  apply Nat.ltb_ge in E. rewrite length_map in E.
  replace (_ <? _)%nat with true by (symmetry; apply Nat.ltb_lt; lia).
  reflexivity.
Qed.


Lemma calculate_from_onsets_insufficient_witness :
  (List.length (onsets {| onsets := map onset_at [0; 1#4; 1#2; 3#4]%Q; list_instrument := "hihat"%string |})
     <= min_intervals default_swing_config)%nat /\
  calculate_from_onsets default_swing_config
    {| onsets := map onset_at [0; 1#4; 1#2; 3#4]%Q; list_instrument := "hihat"%string |} =
    Ok (mkSwingAnalysis 50 1 false 0 "Datos insuficientes"%string).
Proof.
  split; [cbv; repeat constructor |].
  apply calculate_from_onsets_insufficient. cbv; repeat constructor.
Defined.

Lemma np_diff_Forall2 (l1 l2 : list Q) :
  Forall2 Qeq l1 l2 -> Forall2 Qeq (np_diff l1) (np_diff l2).
Proof.
  induction 1 as [| x y l1 l2 Hxy H IH]; [constructor |].
  destruct H as [| x' y' l1' l2' Hxy' H']; [constructor |].
  change (np_diff (x :: x' :: l1')) with ((x' - x) :: np_diff (x' :: l1')).
  change (np_diff (y :: y' :: l2')) with ((y' - y) :: np_diff (y' :: l2')).
  constructor; [rewrite Hxy, Hxy'; reflexivity | exact IH].
Qed.

Lemma Forall_Qeq_transfer (d : Q) (l1 l2 : list Q) :
  Forall2 Qeq l1 l2 -> Forall (fun x => x == d) l2 -> Forall (fun x => x == d) l1.
Proof.
  induction 1 as [| x y l1 l2 Hxy _ IH]; intros H; [constructor |].
  inversion H as [| ? ? Hy Hl]; subst.
  constructor; [rewrite Hxy; exact Hy | exact (IH Hl)].
Qed.

(** X10: evenly spaced onsets (at least 3, more than the minimum of intervals) are analysed as straight: 50 percent, ratio 1, not swung, confidence 1 and the description "Straight (sin swing)". *)
Theorem calculate_from_onsets_even_spacing (config : SwingConfig) (o : OnsetList)
    (t0 d : Q) (n : nat) :
  0 < d -> (3 <= n)%nat -> (min_intervals config < n)%nat ->
  Forall2 Qeq (times o) (map (fun i => t0 + qnat i * d) (seq 0 n)) ->
  exists a, calculate_from_onsets config o = Ok a /\
    swing_percentage a == 50 /\ swing_ratio a == 1 /\ is_swung a = false /\
    swing_confidence a == 1 /\ description a = "Straight (sin swing)"%string.
Proof.
  intros Hd Hn3 Hmin Ht. unfold calculate_from_onsets. cbv zeta.
  assert (Hlen0 : List.length (times o) = n)
    by (rewrite (Forall2_length Ht), length_map, length_seq; reflexivity).
  rewrite Hlen0.
  replace (n <? 2)%nat with false by (symmetry; apply Nat.ltb_ge; lia).
  set (l := np_diff (times o)).
  assert (Hl : Forall (fun x => x == d) l).
  { apply (Forall_Qeq_transfer d _ _ (np_diff_Forall2 _ _ Ht)).
    destruct n as [| n]; [lia |].
    rewrite np_diff_map_seq.
    apply Forall_forall. intros x Hx.
    apply in_map_iff in Hx. destruct Hx as [i [<- _]].
    rewrite qnat_S. ring. }
  unfold calculate_from_intervals.
  assert (Hlen : List.length l = (n - 1)%nat)
    by (unfold l; rewrite np_diff_length, Hlen0; reflexivity).
  rewrite Hlen. replace (n - 1 <? min_intervals config)%nat with false
    by (symmetry; apply Nat.ltb_ge; lia).
  destruct (swing_pair_ratios_even d l Hd Hl) as [rs [Hrs [Hh Hrl]]].
  rewrite Hrs, obind_ok.
  destruct rs as [| r rs'].
  { rewrite Hlen in Hrl. simpl in Hrl.
    destruct n as [| [| [| n]]]; [lia | lia | lia |].
    replace (S (S (S n)) - 1)%nat with (S (S n)) in Hrl by lia.
    discriminate Hrl. }
  destruct (np_mean_const (1 # 2) r rs' Hh) as [m [Hm Hm2]]. rewrite Hm, obind_ok.
  destruct (np_std_const (1 # 2) r rs' Hh) as [s [Hs Hs0]]. rewrite Hs, obind_ok.
  replace (Qle_bool m (1 # 2)) with true
    by (symmetry; apply Qle_bool_iff; rewrite Hm2; apply Qle_refl).
  rewrite obind_ok.
  assert (Hp : Qltb (m * 100) 52 = true) by (apply Qltb_true; rewrite Hm2; reflexivity).
  eexists. split; [reflexivity |].
  unfold mkSwingAnalysis. cbn [swing_percentage swing_ratio is_swung swing_confidence description].
  split; [rewrite Hm2; reflexivity |]. split; [reflexivity |].
  split; [apply Qltb_false; rewrite Hm2; discriminate |].
  split.
  - rewrite Hs0. reflexivity.
  - cbn [String.eqb]. unfold swing_description. rewrite Hp. reflexivity.
Qed.

Lemma calculate_from_onsets_even_spacing_witness :
  Forall2 Qeq (times {| onsets := map onset_at [0; 1#4; 1#2; 3#4; 1]%Q;
                        list_instrument := "hihat"%string |})
    (map (fun i => 0 + qnat i * (1 # 4)) (seq 0 5)) /\
  exists a, calculate_from_onsets default_swing_config
    {| onsets := map onset_at [0; 1#4; 1#2; 3#4; 1]%Q; list_instrument := "hihat"%string |} = Ok a /\
    swing_percentage a == 50 /\ swing_ratio a == 1 /\ is_swung a = false /\
    swing_confidence a == 1 /\ description a = "Straight (sin swing)"%string.
Proof.
  assert (H : Forall2 Qeq (times {| onsets := map onset_at [0; 1#4; 1#2; 3#4; 1]%Q;
                        list_instrument := "hihat"%string |})
    (map (fun i => 0 + qnat i * (1 # 4)) (seq 0 5)))
    by (repeat constructor).
  split; [exact H |].
  apply (calculate_from_onsets_even_spacing default_swing_config _ 0 (1 # 4) 5).
  - reflexivity.
  - repeat constructor.
  - cbv; repeat constructor.
  - exact H.
Defined.


Lemma py_int_ge0 (x : Q) : 0 <= x -> (0 <= py_int x)%Z.
Proof.
  intros H. unfold py_int. unfold Qle in H. simpl in H.
  apply Z.quot_pos; lia.
Qed.

Lemma first_index_lt (f : Q -> bool) (l : list Q) (i : nat) :
  first_index f l = Some i -> (i < List.length l)%nat.
Proof.
  revert i. induction l as [| x l IH]; intros i H; simpl in H; [discriminate |].
  destruct (f x); [injection H as <-; simpl; lia |].
  destruct (first_index f l) as [j |] eqn:E; [| discriminate].
  injection H as <-. simpl. specialize (IH j eq_refl). lia.
Qed.

Lemma np_max_none (l : list Q) : np_max l = None <-> l = [].
Proof. destruct l; simpl; split; congruence. Qed.

Lemma np_max_in (l : list Q) (m : Q) : np_max l = Some m -> In m l.
Proof.
  destruct l as [| x l]; simpl; [discriminate |]. intros H. injection H as <-.
  assert (G : forall acc, In acc (x :: l) -> forall l', incl l' (x :: l) ->
    In (fold_left (fun m y => if Qltb m y then y else m) l' acc) (x :: l)).
  { intros acc Hacc l'. revert acc Hacc. induction l' as [| z l' IH]; intros acc Hacc Hi;
      simpl; [exact Hacc |].
    apply IH; [| intros w Hw; apply Hi; right; exact Hw].
    destruct (Qltb acc z); [apply Hi; left; reflexivity | exact Hacc]. }
  apply G; [left; reflexivity |]. intros w Hw. right. exact Hw.
Qed.

Lemma np_convolve_same_box_length (a : list Q) (m : nat) :
  List.length (np_convolve_same_box a m) = List.length a.
Proof. unfold np_convolve_same_box. rewrite length_map, length_seq. reflexivity. Qed.

Lemma decay_envelope_length (c : HiHatClassifier) (segment : list Q) :
  List.length
    (if (0 <? py_int ((5 # 1000) * inject_Z (sr c)))%Z &&
        (py_int ((5 # 1000) * inject_Z (sr c)) <? Z.of_nat (List.length (map Qabs segment)))%Z
     then np_convolve_same_box (map Qabs segment) (Z.to_nat (py_int ((5 # 1000) * inject_Z (sr c))))
     else map Qabs segment) = List.length segment.
Proof.
  destruct (_ && _)%bool; [rewrite np_convolve_same_box_length |]; apply length_map.
Qed.

(** X11: with a positive sample rate, [_calculate_decay_time] fails only on an empty segment, and otherwise returns a time between 0 and the duration of the segment. *)
Theorem decay_time_bounds (c : HiHatClassifier) (segment : list Q) :
  (0 < sr c)%Z ->
  (_calculate_decay_time c segment = None <-> segment = []) /\
  (forall d, _calculate_decay_time c segment = Some d ->
     0 <= d <= qnat (List.length segment) / inject_Z (sr c)).
Proof.
  intros Hsr. unfold _calculate_decay_time.
  pose proof (decay_envelope_length c segment) as Hlen. cbv zeta.
  match goal with |- context [np_max ?e] => set (env := e) in * end.
  assert (Hs : 0 < inject_Z (sr c)) by (unfold Qlt; simpl; lia).
  destruct (np_max env) as [p |] eqn:Ep.
  - split.
    + split; [intros H; destruct (Qeq_bool p 0); [discriminate |];
              destruct (first_index _ _); discriminate |].
      intros ->. destruct env; [discriminate Ep | discriminate Hlen].
    + intros d. destruct (Qeq_bool p 0).
      * intros H. injection H as <-. split; [apply Qle_refl |].
        apply Qle_shift_div_l; [exact Hs |]. rewrite Qmult_0_l.
        unfold qnat, Qle. simpl. lia.
      * set (pk := match first_index _ env with Some i => i | None => 0%nat end).
        assert (Hpk : (pk <= List.length segment)%nat).
        { unfold pk. destruct (first_index _ env) eqn:Ei; [| lia].
          apply first_index_lt in Ei. lia. }
        destruct (first_index _ (skipn pk env)) as [i |] eqn:Ei; intros H; injection H as <-.
        -- apply first_index_lt in Ei. rewrite length_skipn in Ei.
           split.
           ++ apply Qle_shift_div_l; [exact Hs |]. rewrite Qmult_0_l.
              unfold qnat, Qle. simpl. lia.
           ++ unfold Qdiv. apply Qmult_le_compat_r; [| apply Qinv_le_0_compat; lra].
              unfold qnat. rewrite <- Zle_Qle. lia.
        -- assert (Hq : qnat (List.length segment) - qnat pk == qnat (List.length segment - pk)).
           { unfold qnat. rewrite Nat2Z.inj_sub by exact Hpk.
             unfold Z.sub. rewrite inject_Z_plus, inject_Z_opp. reflexivity. }
           rewrite Hq. split.
           ++ apply Qle_shift_div_l; [exact Hs |]. rewrite Qmult_0_l.
              unfold qnat, Qle. simpl. lia.
           ++ unfold Qdiv. apply Qmult_le_compat_r; [| apply Qinv_le_0_compat; lra].
              unfold qnat. rewrite <- Zle_Qle. lia.
  - apply np_max_none in Ep. split.
    + split; [intros _ | reflexivity].
      destruct segment; [reflexivity |]. rewrite Ep in Hlen. discriminate.
    + intros d H. discriminate.
Qed.

Lemma decay_time_bounds_witness :
  (0 < sr (mkHiHatClassifier 22050))%Z /\
  (_calculate_decay_time (mkHiHatClassifier 22050) [1; 1 # 2; 0] = None <-> [1; 1 # 2; 0] = []) /\
  (forall d, _calculate_decay_time (mkHiHatClassifier 22050) [1; 1 # 2; 0] = Some d ->
     0 <= d <= qnat (List.length [1; 1 # 2; 0]) / inject_Z (sr (mkHiHatClassifier 22050))).
Proof.
  split; [reflexivity |].
  apply decay_time_bounds. reflexivity.
Defined.

Lemma weighted_sum_bounds (T : Q) (ts es : list Q) :
  0 <= T -> Forall (fun t => 0 <= t <= T) ts -> Forall (fun e => 0 <= e) es ->
  0 <= Qsum (map (fun p => fst p * snd p) (combine ts es)) <= T * Qsum es.
Proof.
  intros HT. revert es. induction ts as [| t ts IH]; intros es Ht He.
  - simpl. unfold Qsum at 1. simpl. split; [apply Qle_refl |].
    assert (0 <= Qsum es).
    { clear -He. induction es as [| e es IH']; [apply Qle_refl |].
      inversion He as [| ? ? H1 H2]; subst. unfold Qsum in *. simpl.
      specialize (IH' H2). lra. }
    apply Qmult_le_0_compat; assumption.
  - destruct es as [| e es].
    + simpl. unfold Qsum. simpl. split; [apply Qle_refl |]. rewrite Qmult_0_r. apply Qle_refl.
    + inversion Ht as [| ? ? [Ht1 Ht2] Hts]; subst.
      inversion He as [| ? ? He1 Hes]; subst.
      destruct (IH es Hts Hes) as [B1 B2].
      change (Qsum (map (fun p => fst p * snd p) (combine (t :: ts) (e :: es))))
        with (t * e + Qsum (map (fun p => fst p * snd p) (combine ts es))).
      change (Qsum (e :: es)) with (e + Qsum es).
      assert (0 <= t * e) by (apply Qmult_le_0_compat; assumption).
      assert (t * e <= T * e) by (apply Qmult_le_compat_r; assumption).
      split; [lra |]. rewrite Qmult_plus_distr_r. lra.
Qed.

Lemma Qsum_nonneg (l : list Q) : Forall (fun e => 0 <= e) l -> 0 <= Qsum l.
Proof.
  induction l as [| e l IH]; intros H; [apply Qle_refl |].
  inversion H as [| ? ? H1 H2]; subst. change (Qsum (e :: l)) with (e + Qsum l).
  specialize (IH H2). lra.
Qed.

(** X12: with a positive sample rate, the temporal centroid lies between 0 and the time of the last sample of the segment. *)
Theorem temporal_centroid_bounds (c : HiHatClassifier) (segment : list Q) :
  (0 < sr c)%Z ->
  0 <= _calculate_temporal_centroid c segment <=
       qnat (List.length segment - 1) / inject_Z (sr c).
Proof.
  intros Hsr. unfold _calculate_temporal_centroid.
  assert (Hs : 0 < inject_Z (sr c)) by (unfold Qlt; simpl; lia).
  assert (HT : 0 <= qnat (List.length segment - 1) / inject_Z (sr c)).
  { apply Qle_shift_div_l; [exact Hs |]. rewrite Qmult_0_l. unfold qnat, Qle. simpl. lia. }
  assert (He : Forall (fun e => 0 <= e) (map (fun x => x * x) segment)).
  { apply Forall_map. apply Forall_forall. intros x _. nra. }
  destruct (Qeq_bool (Qsum (map (fun x => x * x) segment)) 0) eqn:E0;
    [split; [apply Qle_refl | exact HT] |].
  cbv zeta.
  assert (Htot : 0 < Qsum (map (fun x => x * x) segment)).
  { pose proof (Qsum_nonneg _ He) as P.
    assert (~ Qsum (map (fun x => x * x) segment) == 0)
      by (intros E; apply Qeq_bool_iff in E; congruence).
    lra. }
  assert (Hts : Forall (fun t => 0 <= t <= qnat (List.length segment - 1) / inject_Z (sr c))
                  (map (fun i => qnat i / inject_Z (sr c)) (seq 0 (List.length segment)))).
  { apply Forall_map. apply Forall_forall. intros i Hi. apply in_seq in Hi.
    split.
    - apply Qle_shift_div_l; [exact Hs |]. rewrite Qmult_0_l. unfold qnat, Qle. simpl. lia.
    - unfold Qdiv. apply Qmult_le_compat_r; [| apply Qinv_le_0_compat; lra].
      unfold qnat. rewrite <- Zle_Qle. lia. }
  destruct (weighted_sum_bounds _ _ _ HT Hts He) as [B1 B2].
  split.
  - apply Qle_shift_div_l; [exact Htot |]. rewrite Qmult_0_l. exact B1.
  - apply Qle_shift_div_r; [exact Htot |]. exact B2.
Qed.

Lemma temporal_centroid_bounds_witness :
  (0 < sr (mkHiHatClassifier 22050))%Z /\
  0 <= _calculate_temporal_centroid (mkHiHatClassifier 22050) [1; 1 # 2; 0] <=
       qnat (List.length [1; 1 # 2; 0] - 1) / inject_Z (sr (mkHiHatClassifier 22050)).
Proof.
  split; [reflexivity |]. apply temporal_centroid_bounds. reflexivity.
Defined.

Lemma Forall_firstn_Q (P : Q -> Prop) (n : nat) (l : list Q) :
  Forall P l -> Forall P (firstn n l).
Proof.
  revert l. induction n as [| n IH]; intros l H; [constructor |].
  destruct l as [| x l]; [constructor |]. inversion H; subst. simpl. constructor; auto.
Qed.

Lemma Forall_skipn_Q (P : Q -> Prop) (n : nat) (l : list Q) :
  Forall P l -> Forall P (skipn n l).
Proof.
  revert l. induction n as [| n IH]; intros l H; [exact H |].
  destruct l as [| x l]; [constructor |]. inversion H; subst. simpl. auto.
Qed.

Lemma Forall_py_slice (P : Q -> Prop) (l : list Q) (a b : Z) :
  Forall P l -> Forall P (py_slice l a b).
Proof. intros H. unfold py_slice. apply Forall_firstn_Q, Forall_skipn_Q, H. Qed.

Lemma Qsum_zero (l : list Q) : Forall (fun x => x == 0) l -> Qsum l == 0.
Proof. intros H. rewrite (Qsum_const 0 l H). ring. Qed.

(** X13: a non-empty silent segment has decay time, amplitude at 100 ms and temporal centroid 0, and is classified CLOSED with confidence 1. *)
Theorem silent_segment_closed (sc sb sf : HiHatClassifier -> list Q -> Q)
    (c : HiHatClassifier) (segment : list Q) :
  0 < decay_closed (thresholds c) -> segment <> [] ->
  Forall (fun x => x == 0) segment ->
  exists f, _extract_features sc sb sf c segment = Some f /\
    decay_time f == 0 /\ amp_100ms f == 0 /\ temporal_centroid f == 0 /\
    fst (_classify_from_features c f) = CLOSED /\ snd (_classify_from_features c f) == 1.
Proof.
  intros Hcl Hne Hz. unfold _extract_features.
  assert (Hd : _calculate_decay_time c segment = Some 0).
  { unfold _calculate_decay_time. cbv zeta.
    assert (Habs : Forall (fun x => x == 0) (map Qabs segment)).
    { apply Forall_map. apply Forall_impl with (2 := Hz). intros x Hx. rewrite Hx. reflexivity. }
    match goal with |- context [np_max ?e] => set (env := e) end.
    assert (Henv : Forall (fun x => x == 0) env).
    { unfold env. destruct (_ && _)%bool; [| exact Habs].
      unfold np_convolve_same_box. apply Forall_map. apply Forall_forall. intros i _.
      apply Qsum_zero. apply Forall_map.
      apply Forall_impl with (P := fun x => x == 0);
        [intros x Hx; rewrite Hx; ring |].
      apply Forall_firstn_Q, Forall_skipn_Q, Habs. }
    destruct (np_max env) as [p |] eqn:Ep.
    - apply np_max_in in Ep. rewrite Forall_forall in Henv.
      rewrite (proj2 (Qeq_bool_iff p 0) (Henv p Ep)). reflexivity.
    - apply np_max_none in Ep.
      pose proof (decay_envelope_length c segment) as Hlen. fold env in Hlen.
      rewrite Ep in Hlen. destruct segment; [contradiction | discriminate]. }
  rewrite Hd. eexists. split; [reflexivity |].
  cbn [decay_time amp_100ms temporal_centroid].
  split; [reflexivity |]. split.
  - unfold _calculate_amp_at_time. cbv zeta.
    destruct (_ || _)%bool; [reflexivity |].
    apply Qsqrt_approx_zero.
    assert (Hsq : Forall (fun x => x == 0)
      (map (fun x => x * x) (py_slice segment
         (Z.max 0 (py_int ((100 # 1000) * inject_Z (sr c)) -
                   py_int ((10 # 1000) * inject_Z (sr c)) / 2))
         (Z.min (Z.of_nat (List.length segment))
            (py_int ((100 # 1000) * inject_Z (sr c)) +
             py_int ((10 # 1000) * inject_Z (sr c)) / 2))))).
    { apply Forall_map. apply Forall_impl with (P := fun x => x == 0);
        [intros x Hx; rewrite Hx; ring |].
      apply Forall_py_slice, Hz. }
    rewrite (Qsum_zero _ Hsq). unfold Qdiv. ring.
  - split.
    + unfold _calculate_temporal_centroid.
      assert (Hsq : Forall (fun x => x == 0) (map (fun x => x * x) segment)).
      { apply Forall_map. apply Forall_impl with (2 := Hz). intros x Hx. rewrite Hx. ring. }
      rewrite (proj2 (Qeq_bool_iff _ 0) (Qsum_zero _ Hsq)). reflexivity.
    + unfold _classify_from_features. cbn [decay_time].
      rewrite (proj2 (Qltb_true 0 (decay_closed (thresholds c))) Hcl).
      split; [reflexivity |]. cbn [snd].
      assert (E : (8 # 10) + (2 # 10) * (1 - 0 / decay_closed (thresholds c)) == 1)
        by (field; lra).
      rewrite E. reflexivity.
Qed.

Lemma silent_segment_closed_witness :
  0 < decay_closed (thresholds (mkHiHatClassifier 22050)) /\ [0; 0; 0] <> [] /\
  Forall (fun x => x == 0) [0; 0; 0] /\
  exists f, _extract_features (fun _ _ => 0) (fun _ _ => 0) (fun _ _ => 0)
              (mkHiHatClassifier 22050) [0; 0; 0] = Some f /\
    decay_time f == 0 /\ amp_100ms f == 0 /\ temporal_centroid f == 0 /\
    fst (_classify_from_features (mkHiHatClassifier 22050) f) = CLOSED /\
    snd (_classify_from_features (mkHiHatClassifier 22050) f) == 1.
Proof.
  assert (H1 : 0 < decay_closed (thresholds (mkHiHatClassifier 22050))) by reflexivity.
  assert (H2 : [0; 0; 0] <> @nil Q) by discriminate.
  assert (H3 : Forall (fun x => x == 0) [0; 0; 0]) by (repeat constructor).
  split; [exact H1 |]. split; [exact H2 |]. split; [exact H3 |].
  exact (silent_segment_closed _ _ _ _ _ H1 H2 H3).
Defined.

(** X14: when 0 < decay_closed < decay_open, [_classify_from_features] never answers UNKNOWN, its confidence lies in [0.5, 1], and it is at most 0.7 when the decay time lies between the two thresholds. *)
Theorem classify_from_features_confidence (c : HiHatClassifier) (f : HiHatFeatures) :
  0 < decay_closed (thresholds c) < decay_open (thresholds c) ->
  let '(t, conf) := _classify_from_features c f in
  t <> HH_UNKNOWN /\ 1 # 2 <= conf <= 1 /\
  (decay_closed (thresholds c) <= decay_time f <= decay_open (thresholds c) -> conf <= 7 # 10).
Proof.
  intros [H1 H2]. unfold _classify_from_features.
  set (th := thresholds c) in *. set (d := decay_time f).
  destruct (Qltb d (decay_closed th)) eqn:Ec; qbool.
  - split; [discriminate |]. split; [| intros [Hd _]; lra].
    assert (d / decay_closed th < 1).
    { apply Qlt_shift_div_r; [exact H1 | lra]. }
    split; [apply Q.min_glb; lra | apply Q.le_min_l].
  - destruct (Qltb (decay_open th) d) eqn:Eo; qbool.
    + split; [discriminate |]. split; [| intros [_ Hd]; lra].
      assert (0 < (d - decay_open th) / decay_open th).
      { apply Qlt_shift_div_l; lra. }
      assert (0 <= Qmin 1 ((d - decay_open th) / decay_open th)) by (apply Q.min_glb; lra).
      split; [apply Q.min_glb; lra | apply Q.le_min_l].
    + set (score := 0 + _ + _ + _ + _).
      destruct (Qltb (1 # 2) score) eqn:Es; qbool.
      * split; [discriminate |]. split; [| intros _; apply Q.le_min_l].
        split; [apply Q.min_glb; lra | ].
        apply Qle_trans with (7 # 10); [apply Q.le_min_l | discriminate].
      * split; [discriminate |]. split; [| intros _; apply Q.le_min_l].
        split; [apply Q.min_glb; lra | ].
        apply Qle_trans with (7 # 10); [apply Q.le_min_l | discriminate].
Qed.

Lemma classify_from_features_confidence_witness :
  0 < decay_closed (thresholds (mkHiHatClassifier 22050)) <
      decay_open (thresholds (mkHiHatClassifier 22050)) /\
  let f := {| decay_time := 3 # 20; amp_100ms := 1 # 20; temporal_centroid := 1 # 10;
              spectral_centroid := 8000; spectral_bandwidth := 3000;
              spectral_flatness := 1 # 2 |} in
  let '(t, conf) := _classify_from_features (mkHiHatClassifier 22050) f in
  t <> HH_UNKNOWN /\ 1 # 2 <= conf <= 1 /\
  (decay_closed (thresholds (mkHiHatClassifier 22050)) <= decay_time f <=
     decay_open (thresholds (mkHiHatClassifier 22050)) -> conf <= 7 # 10).
Proof.
  assert (H : 0 < decay_closed (thresholds (mkHiHatClassifier 22050)) <
              decay_open (thresholds (mkHiHatClassifier 22050))) by (split; reflexivity).
  split; [exact H |]. apply classify_from_features_confidence. exact H.
Defined.

(** X15: for an onset at a non-negative time, [_extract_segment] returns the samples from int(onset_time * sr) on, at most int(segment_duration * sr) of them. *)
Theorem extract_segment_window (c : HiHatClassifier) (y : list Q) (onset_time : Q) :
  0 <= onset_time -> (0 <= sr c)%Z -> 0 <= segment_duration c ->
  _extract_segment c y onset_time =
    firstn (Z.to_nat (py_int (segment_duration c * inject_Z (sr c))))
      (skipn (Z.to_nat (py_int (onset_time * inject_Z (sr c)))) y).
Proof.
  intros Ht Hsr Hd. unfold _extract_segment, py_slice. cbv zeta.
  assert (Hs0 : 0 <= inject_Z (sr c)) by (unfold Qle; simpl; lia).
  pose proof (py_int_ge0 (onset_time * inject_Z (sr c))
                (Qmult_le_0_compat _ _ Ht Hs0)) as Hs.
  pose proof (py_int_ge0 (segment_duration c * inject_Z (sr c))
                (Qmult_le_0_compat _ _ Hd Hs0)) as HL.
  set (s := py_int (onset_time * inject_Z (sr c))) in *.
  set (L := py_int (segment_duration c * inject_Z (sr c))) in *.
  set (n := List.length y).
  rewrite (Z.max_r 0 s) by exact Hs.
  replace (s <? 0)%Z with false by (symmetry; apply Z.ltb_ge; lia).
  replace (Z.min (Z.of_nat n) (s + L) <? 0)%Z with false by (symmetry; apply Z.ltb_ge; lia).
  destruct (Z.le_gt_cases s (Z.of_nat n)) as [Hle | Hgt].
  - rewrite (Z.min_l s) by exact Hle.
    rewrite (Z.min_l (Z.min _ _)) by lia.
    replace (Z.to_nat (Z.min (Z.of_nat n) (s + L) - s))
      with (Nat.min (n - Z.to_nat s) (Z.to_nat L)) by lia.
    unfold n. rewrite <- (length_skipn (Z.to_nat s) y).
    rewrite <- firstn_firstn. apply firstn_all2. rewrite length_firstn. lia.
  - rewrite (Z.min_r s) by lia.
    rewrite (Z.min_l (Z.min _ _)) by lia.
    rewrite (Z.min_l (Z.of_nat n)) by lia.
    rewrite Z.sub_diag. simpl firstn at 1.
    rewrite skipn_all2 by lia. destruct (Z.to_nat L); reflexivity.
Qed.

Lemma extract_segment_window_witness :
  0 <= 1 # 2 /\ (0 <= sr (mkHiHatClassifier 10))%Z /\
  0 <= segment_duration (mkHiHatClassifier 10) /\
  _extract_segment (mkHiHatClassifier 10) [1; 2; 3; 4; 5; 6; 7; 8] (1 # 2) =
    firstn (Z.to_nat (py_int (segment_duration (mkHiHatClassifier 10) *
                              inject_Z (sr (mkHiHatClassifier 10)))))
      (skipn (Z.to_nat (py_int ((1 # 2) * inject_Z (sr (mkHiHatClassifier 10)))))
         [1; 2; 3; 4; 5; 6; 7; 8]).
Proof.
  assert (H1 : 0 <= 1 # 2) by discriminate.
  assert (H2 : (0 <= sr (mkHiHatClassifier 10))%Z) by discriminate.
  assert (H3 : 0 <= segment_duration (mkHiHatClassifier 10)) by discriminate.
  split; [exact H1 |]. split; [exact H2 |]. split; [exact H3 |].
  exact (extract_segment_window _ _ _ H1 H2 H3).
Defined.

(** X16: when the onset lies so far before 0 that the slice end int(onset_time * sr) + int(segment_duration * sr) is negative, [_extract_segment] counts that end from the end of the audio and returns a prefix of it. *)
Theorem extract_segment_before_start (c : HiHatClassifier) (y : list Q) (onset_time : Q) :
  (0 <= sr c)%Z -> 0 <= segment_duration c ->
  (py_int (onset_time * inject_Z (sr c)) + py_int (segment_duration c * inject_Z (sr c)) < 0)%Z ->
  _extract_segment c y onset_time =
    firstn (Z.to_nat (Z.of_nat (List.length y) + py_int (onset_time * inject_Z (sr c))
                      + py_int (segment_duration c * inject_Z (sr c)))) y.
Proof.
  intros Hsr Hd Hneg. unfold _extract_segment, py_slice. cbv zeta.
  assert (Hs0 : 0 <= inject_Z (sr c)) by (unfold Qle; simpl; lia).
  pose proof (py_int_ge0 (segment_duration c * inject_Z (sr c))
                (Qmult_le_0_compat _ _ Hd Hs0)) as HL.
  set (s := py_int (onset_time * inject_Z (sr c))) in *.
  set (L := py_int (segment_duration c * inject_Z (sr c))) in *.
  set (n := List.length y).
  rewrite (Z.max_l 0 s) by lia.
  rewrite (Z.min_r (Z.of_nat n) (s + L)) by lia.
  replace (0 <? 0)%Z with false by reflexivity.
  replace (s + L <? 0)%Z with true by (symmetry; apply Z.ltb_lt; exact Hneg).
  rewrite (Z.min_l 0 (Z.of_nat n)) by lia.
  simpl skipn. f_equal. lia.
Qed.

Lemma extract_segment_before_start_witness :
  (0 <= sr (mkHiHatClassifier 10))%Z /\ 0 <= segment_duration (mkHiHatClassifier 10) /\
  (py_int ((-2) * inject_Z (sr (mkHiHatClassifier 10))) +
   py_int (segment_duration (mkHiHatClassifier 10) * inject_Z (sr (mkHiHatClassifier 10))) < 0)%Z /\
  _extract_segment (mkHiHatClassifier 10) (repeat 1 30) (-2) =
    firstn (Z.to_nat (Z.of_nat (List.length (repeat 1 30))
                      + py_int ((-2) * inject_Z (sr (mkHiHatClassifier 10)))
                      + py_int (segment_duration (mkHiHatClassifier 10) *
                                inject_Z (sr (mkHiHatClassifier 10))))) (repeat 1 30).
Proof.
  assert (H1 : (0 <= sr (mkHiHatClassifier 10))%Z) by discriminate.
  assert (H2 : 0 <= segment_duration (mkHiHatClassifier 10)) by discriminate.
  assert (H3 : (py_int ((-2) * inject_Z (sr (mkHiHatClassifier 10))) +
     py_int (segment_duration (mkHiHatClassifier 10) * inject_Z (sr (mkHiHatClassifier 10)))
       < 0)%Z) by reflexivity.
  split; [exact H1 |]. split; [exact H2 |]. split; [exact H3 |].
  exact (extract_segment_before_start _ _ _ H1 H2 H3).
Defined.


(** X17: when ppq is a positive multiple of 4, [tick_to_grid_position] needs no clamping: the step lies in 1..16, the bar is tick // (4 ppq) + 1 and the absolute step is tick // (ppq / 4) + 1. *)
Theorem tick_to_grid_position_exact (bpm : Q) (ppq tick0 : Z) :
  (0 < ppq)%Z -> (ppq mod 4 = 0)%Z ->
  let g := tick_to_grid_position (mkTimingConverter bpm ppq) tick0 in
  (1 <= step g <= STEPS_PER_BAR)%Z /\
  bar g = (tick0 / (ppq * 4) + 1)%Z /\
  absolute_step g = (tick0 / (ppq / 4) + 1)%Z.
Proof.
  intros Hp Hm. cbv zeta. unfold tick_to_grid_position, absolute_step, STEPS_PER_BAR.
  cbn [ticks_per_bar ticks_per_step mkTimingConverter bar step].
  set (k := (ppq / 4)%Z).
  assert (Hppq : ppq = (4 * k)%Z) by (unfold k; pose proof (Z.div_mod ppq 4); lia).
  assert (Hk : (0 < k)%Z) by lia.
  rewrite Hppq. replace (4 * k * 4)%Z with (16 * k)%Z by ring.
  replace (4 * k / 4)%Z with k by (rewrite Z.mul_comm, Z.div_mul; lia).
  set (q := (tick0 / (16 * k))%Z). set (r := (tick0 mod (16 * k))%Z).
  assert (Hr : (0 <= r < 16 * k)%Z) by (apply Z.mod_pos_bound; lia).
  assert (Hrk : (0 <= r / k < 16)%Z).
  { split; [apply Z.div_pos; lia |]. apply Z.div_lt_upper_bound; lia. }
  rewrite Z.min_r by lia. rewrite Z.max_r by lia.
  assert (Ht : tick0 = (16 * k * q + r)%Z) by (apply Z.div_mod; lia).
  assert (Hd : (tick0 / k = 16 * q + r / k)%Z).
  { rewrite Ht. replace (16 * k * q + r)%Z with (r + (16 * q) * k)%Z by ring.
    rewrite Z.div_add by lia. ring. }
  split; [lia |]. split; [reflexivity |].
  rewrite Hd. ring.
Qed.

Lemma tick_to_grid_position_exact_witness :
  (0 < 480)%Z /\ (480 mod 4 = 0)%Z /\
  let g := tick_to_grid_position (mkTimingConverter 120 480) 2000 in
  (1 <= step g <= STEPS_PER_BAR)%Z /\
  bar g = (2000 / (480 * 4) + 1)%Z /\
  absolute_step g = (2000 / (480 / 4) + 1)%Z.
Proof.
  split; [reflexivity |]. split; [reflexivity |].
  apply tick_to_grid_position_exact; reflexivity.
Defined.

(** X18: [onset_to_tick_data] (bpm > 0, ppq >= 4) splits the tick into a multiple of ticks_per_step plus a deviation of at most half a step, converts the deviation to signed milliseconds, and marks rushing and dragging by the sign of those milliseconds. *)
Theorem onset_to_tick_data_spec (bpm : Q) (ppq : Z) (onset : OnsetData) :
  0 < bpm -> (4 <= ppq)%Z ->
  let c := mkTimingConverter bpm ppq in
  let td := onset_to_tick_data c onset in
  tick td = (quantized_tick td + deviation_ticks td)%Z /\
  (quantized_tick td mod ticks_per_step c = 0)%Z /\
  (2 * Z.abs (deviation_ticks td) <= ticks_per_step c)%Z /\
  deviation_ms td == inject_Z (deviation_ticks td) * 60000 / (inject_Z ppq * bpm) /\
  (is_rushing td = true <-> deviation_ms td < 0) /\
  (is_dragging td = true <-> 0 < deviation_ms td).
Proof.
  intros Hb Hp. cbv zeta. unfold onset_to_tick_data, quantize_tick.
  cbn [ticks_per_step mkTimingConverter].
  set (k := (ppq / 4)%Z).
  assert (Hk : (0 < k)%Z) by (unfold k; apply Z.div_str_pos; lia).
  set (t0 := tc_time_to_tick _ (time onset)).
  set (s := py_round (inject_Z t0 / inject_Z k)).
  destruct (py_round_bounds (inject_Z t0 / inject_Z k)) as [B1 B2]. fold s in B1, B2.
  assert (Hkq : 0 < inject_Z k) by (unfold Qlt; simpl; lia).
  assert (Z1 : (2 * t0 - k <= 2 * (s * k))%Z).
  { rewrite Zle_Qle. unfold Z.sub.
    rewrite inject_Z_plus, inject_Z_opp, !inject_Z_mult. change (inject_Z 2) with 2.
    assert (E : inject_Z t0 == inject_Z t0 / inject_Z k * inject_Z k)
      by (field; intros E; rewrite E in Hkq; discriminate).
    rewrite E at 1.
    assert (inject_Z t0 / inject_Z k * inject_Z k - (1 # 2) * inject_Z k
            <= inject_Z s * inject_Z k) by
      (setoid_replace (inject_Z t0 / inject_Z k * inject_Z k - (1 # 2) * inject_Z k)
         with ((inject_Z t0 / inject_Z k - (1 # 2)) * inject_Z k) by ring;
       apply Qmult_le_compat_r; lra).
    lra. }
  assert (Z2 : (2 * (s * k) <= 2 * t0 + k)%Z).
  { rewrite Zle_Qle.
    rewrite inject_Z_plus, !inject_Z_mult. change (inject_Z 2) with 2.
    assert (E : inject_Z t0 == inject_Z t0 / inject_Z k * inject_Z k)
      by (field; intros E; rewrite E in Hkq; discriminate).
    rewrite E at 1.
    assert (inject_Z s * inject_Z k <=
            inject_Z t0 / inject_Z k * inject_Z k + (1 # 2) * inject_Z k) by
      (setoid_replace (inject_Z t0 / inject_Z k * inject_Z k + (1 # 2) * inject_Z k)
         with ((inject_Z t0 / inject_Z k + (1 # 2)) * inject_Z k) by ring;
       apply Qmult_le_compat_r; lra).
    lra. }
  cbn [tick quantized_tick deviation_ticks deviation_ms].
  assert (Hppq : 0 < inject_Z ppq) by (unfold Qlt; simpl; lia).
  assert (Hms : (if (t0 - s * k <? 0)%Z
                 then - (tc_tick_to_time (mkTimingConverter bpm ppq) (Z.abs (t0 - s * k)) * 1000)
                 else tc_tick_to_time (mkTimingConverter bpm ppq) (Z.abs (t0 - s * k)) * 1000)
                == inject_Z (t0 - s * k) * 60000 / (inject_Z ppq * bpm)).
  { unfold tc_tick_to_time, tick_to_time. cbn [tc_bpm tc_ppq mkTimingConverter].
    assert (~ inject_Z ppq == 0) by (intros E; rewrite E in Hppq; discriminate).
    assert (~ bpm == 0) by (intros E; rewrite E in Hb; discriminate).
    destruct (t0 - s * k <? 0)%Z eqn:En.
    - apply Z.ltb_lt in En. rewrite Z.abs_neq by lia. rewrite inject_Z_opp. field. auto.
    - apply Z.ltb_ge in En. rewrite Z.abs_eq by lia. field. auto. }
  assert (Hpos : 0 < 60000 / (inject_Z ppq * bpm)).
  { apply Qlt_shift_div_l; [apply Qmult_lt_0_compat; assumption | reflexivity]. }
  assert (Hsg : inject_Z (t0 - s * k) * 60000 / (inject_Z ppq * bpm)
                == inject_Z (t0 - s * k) * (60000 / (inject_Z ppq * bpm))).
  { unfold Qdiv. ring. }
  split; [ring |]. split; [apply Z.mod_mul; lia |]. split; [lia |].
  split; [exact Hms |].
  unfold is_rushing, is_dragging. cbn [deviation_ticks].
  rewrite Hms, Hsg. split; split.
  - intros H. apply Z.ltb_lt in H.
    assert (inject_Z (t0 - s * k) < 0) by (change 0 with (inject_Z 0); rewrite <- Zlt_Qlt; exact H).
    rewrite <- (Qmult_0_l (60000 / (inject_Z ppq * bpm))).
    apply Qmult_lt_r; assumption.
  - intros H. apply Z.ltb_lt. rewrite Zlt_Qlt.
    rewrite <- (Qmult_0_l (60000 / (inject_Z ppq * bpm))) in H.
    apply Qmult_lt_r in H; assumption.
  - intros H. apply Z.ltb_lt in H.
    assert (0 < inject_Z (t0 - s * k)) by (change 0 with (inject_Z 0); rewrite <- Zlt_Qlt; exact H).
    apply Qmult_lt_0_compat; assumption.
  - intros H. apply Z.ltb_lt. rewrite Zlt_Qlt.
    rewrite <- (Qmult_0_l (60000 / (inject_Z ppq * bpm))) in H.
    apply Qmult_lt_r in H; assumption.
Qed.

Lemma onset_to_tick_data_spec_witness :
  0 < 120 /\ (4 <= 480)%Z /\
  let c := mkTimingConverter 120 480 in
  let td := onset_to_tick_data c {| time := 51 # 100; velocity := 90; instrument := "kick"%string |} in
  tick td = (quantized_tick td + deviation_ticks td)%Z /\
  (quantized_tick td mod ticks_per_step c = 0)%Z /\
  (2 * Z.abs (deviation_ticks td) <= ticks_per_step c)%Z /\
  deviation_ms td == inject_Z (deviation_ticks td) * 60000 / (inject_Z 480 * 120) /\
  (is_rushing td = true <-> deviation_ms td < 0) /\
  (is_dragging td = true <-> 0 < deviation_ms td).
Proof.
  split; [reflexivity |]. split; [discriminate |].
  apply onset_to_tick_data_spec; [reflexivity | discriminate].
Defined.

Lemma humanization_counts (tol : Q) (l : list Q) :
  0 <= tol ->
  (List.length (filter (fun d => Qltb d (- tol)) l) +
   List.length (filter (fun d => Qltb tol d) l) +
   List.length (filter (fun d => Qle_bool (Qabs d) tol) l) = List.length l)%nat.
Proof.
  intros Ht. induction l as [| d l IH]; [reflexivity |]. simpl.
  assert (Hd : (Qltb d (- tol) = true /\ Qltb tol d = false /\ Qle_bool (Qabs d) tol = false) \/
               (Qltb d (- tol) = false /\ Qltb tol d = true /\ Qle_bool (Qabs d) tol = false) \/
               (Qltb d (- tol) = false /\ Qltb tol d = false /\ Qle_bool (Qabs d) tol = true)).
  { destruct (Qlt_le_dec d (- tol)) as [H1 | H1];
      [left | destruct (Qlt_le_dec tol d) as [H2 | H2]; [right; left | right; right]].
    - rewrite Qabs_neg by lra.
      split; [apply Qltb_true; lra |]. split; [apply Qltb_false; lra |].
      apply Qle_bool_false. lra.
    - rewrite Qabs_pos by lra.
      split; [apply Qltb_false; lra |]. split; [apply Qltb_true; lra |].
      apply Qle_bool_false. lra.
    - split; [apply Qltb_false; lra |]. split; [apply Qltb_false; lra |].
      apply Qle_bool_iff. apply Qabs_Qle_condition. lra. }
  destruct Hd as [[-> [-> ->]] | [[-> [-> ->]] | [-> [-> ->]]]]; cbn [List.length]; lia.
Qed.

Lemma fold_py_max_ge (l : list Q) (acc : Q) :
  acc <= fold_left py_max l acc /\ Forall (fun x => x <= fold_left py_max l acc) l.
Proof.
  revert acc. induction l as [| x l IH]; intros acc; simpl; [split; [apply Qle_refl | constructor] |].
  destruct (IH (py_max acc x)) as [H1 H2].
  assert (acc <= py_max acc x /\ x <= py_max acc x).
  { unfold py_max. destruct (Qltb acc x) eqn:E; qbool; lra. }
  split; [lra |]. constructor; [lra | exact H2].
Qed.

(** X20: with a non-negative tolerance on a non-empty list, the rushing, dragging and on-grid percentages of [get_humanization_stats] are non-negative and sum to 100, every deviation is bounded by the maximum, and the average lies between 0 and the maximum. *)
Theorem humanization_stats_partition (tick_data_list : list TickData) (tol : Q) :
  0 <= tol -> tick_data_list <> [] ->
  let h := get_humanization_stats tick_data_list tol in
  rushing_percent h + dragging_percent h + on_grid_percent h == 100 /\
  0 <= rushing_percent h /\ 0 <= dragging_percent h /\ 0 <= on_grid_percent h /\
  (forall td, In td tick_data_list -> Qabs (deviation_ms td) <= max_deviation_ms h) /\
  0 <= avg_deviation_ms h <= max_deviation_ms h.
Proof.
  intros Ht Hne. cbv zeta. unfold get_humanization_stats.
  destruct tick_data_list as [| td0 rest] eqn:El; [contradiction |].
  rewrite <- El in *. cbn [List.length Nat.eqb].
  rewrite El. cbn [List.length Nat.eqb]. rewrite <- El.
  cbn [rushing_percent dragging_percent on_grid_percent avg_deviation_ms max_deviation_ms].
  set (devs := map deviation_ms tick_data_list).
  assert (Hlen : List.length devs = S (List.length rest))
    by (unfold devs; rewrite El, length_map; reflexivity).
  rewrite Hlen. unfold count_true.
  pose proof (humanization_counts tol devs Ht) as Hc. rewrite Hlen in Hc.
  pose proof (qnat_S_pos (List.length rest)) as Hp.
  assert (Hnz : ~ qnat (S (List.length rest)) == 0) by (apply qnat_S_nonzero).
  assert (Hq0 : forall m : nat, 0 <= qnat m) by (intros m; unfold qnat, Qle; simpl; lia).
  assert (Hdiv0 : forall m : nat, 0 <= qnat m / qnat (S (List.length rest)) * 100).
  { intros m. apply Qmult_le_0_compat; [| discriminate].
    apply Qle_shift_div_l; [exact Hp | rewrite Qmult_0_l; apply Hq0]. }
  split.
  - assert (E : qnat (S (List.length rest)) ==
                qnat (List.length (filter (fun d => Qltb d (- tol)) devs)) +
                qnat (List.length (filter (fun d => Qltb tol d) devs)) +
                qnat (List.length (filter (fun d => Qle_bool (Qabs d) tol) devs))).
    { rewrite <- Hc. unfold qnat. rewrite !Nat2Z.inj_add, !inject_Z_plus. reflexivity. }
    set (a := qnat (List.length (filter (fun d => Qltb d (- tol)) devs))) in *.
    set (b := qnat (List.length (filter (fun d => Qltb tol d) devs))) in *.
    set (g := qnat (List.length (filter (fun d => Qle_bool (Qabs d) tol) devs))) in *.
    set (n := qnat (S (List.length rest))) in *.
    assert (E2 : a / n * 100 + b / n * 100 + g / n * 100 == (a + b + g) / n * 100)
      by (field; exact Hnz).
    rewrite E2, <- E. field. exact Hnz.
  - split; [apply Hdiv0 |]. split; [apply Hdiv0 |]. split; [apply Hdiv0 |].
    assert (Habs : map Qabs devs = Qabs (deviation_ms td0) :: map Qabs (map deviation_ms rest))
      by (unfold devs; rewrite El; reflexivity).
    rewrite Habs.
    destruct (fold_py_max_ge (map Qabs (map deviation_ms rest)) (Qabs (deviation_ms td0)))
      as [M1 M2].
    set (M := fold_left py_max (map Qabs (map deviation_ms rest)) (Qabs (deviation_ms td0))) in *.
    assert (Hall : Forall (fun x => x <= M) (map Qabs devs)).
    { rewrite Habs. constructor; assumption. }
    split.
    + intros td Hin. rewrite Forall_forall in Hall. apply Hall.
      unfold devs. rewrite map_map. apply in_map_iff. exists td. auto.
    + rewrite <- Habs. split.
      * apply Qle_shift_div_l; [exact Hp |]. rewrite Qmult_0_l.
        apply Qsum_nonneg. unfold devs. apply Forall_map.
        apply Forall_forall. intros x _. apply Qabs_nonneg.
      * apply Qle_shift_div_r; [exact Hp |].
        assert (Hb : Forall (fun x => 0 <= x <= M) (map Qabs devs)).
        { apply Forall_forall. intros x Hx. split; [| rewrite Forall_forall in Hall; auto].
          apply in_map_iff in Hx. destruct Hx as [y [<- _]]. apply Qabs_nonneg. }
        destruct (Qsum_bounds 0 M _ Hb) as [_ B].
        rewrite length_map, Hlen in B. rewrite Qmult_comm. exact B.
Qed.


Lemma humanization_stats_partition_witness :
  0 <= 5 /\ [example_tick 3 (25 # 8); example_tick (-7) (-(35 # 4))] <> [] /\
  let h := get_humanization_stats [example_tick 3 (25 # 8); example_tick (-7) (-(35 # 4))] 5 in
  rushing_percent h + dragging_percent h + on_grid_percent h == 100 /\
  0 <= rushing_percent h /\ 0 <= dragging_percent h /\ 0 <= on_grid_percent h /\
  (forall td, In td [example_tick 3 (25 # 8); example_tick (-7) (-(35 # 4))] ->
     Qabs (deviation_ms td) <= max_deviation_ms h) /\
  0 <= avg_deviation_ms h <= max_deviation_ms h.
Proof.
  assert (H1 : 0 <= 5) by discriminate.
  assert (H2 : [example_tick 3 (25 # 8); example_tick (-7) (-(35 # 4))] <> []) by discriminate.
  split; [exact H1 |]. split; [exact H2 |].
  exact (humanization_stats_partition _ _ H1 H2).
Defined.

Lemma list_set_length {A : Type} (l : list A) (i : nat) (v : A) :
  List.length (list_set l i v) = List.length l.
Proof.
  revert i. induction l as [| x l IH]; intros [| i]; simpl; auto.
Qed.

Lemma list_set_nth {A : Type} (l : list A) (i j : nat) (v d : A) :
  (i < List.length l)%nat ->
  nth j (list_set l i v) d = if Nat.eqb j i then v else nth j l d.
Proof.
  revert i j. induction l as [| x l IH]; intros i j Hi; simpl in Hi; [lia |].
  destruct i as [| i], j as [| j]; simpl; try reflexivity.
  apply IH. lia.
Qed.

Lemma list_set_01 (l : list Z) (i : nat) :
  Forall (fun x => x = 0%Z \/ x = 1%Z) l -> Forall (fun x => x = 0%Z \/ x = 1%Z) (list_set l i 1%Z).
Proof.
  revert i. induction l as [| x l IH]; intros [| i] H; simpl; auto;
    inversion H; subst; constructor; auto.
Qed.

Lemma TickData_eqb_refl (td : TickData) : TickData_eqb td td = true.
Proof.
  unfold TickData_eqb. rewrite !Z.eqb_refl.
  rewrite (proj2 (Qeq_bool_iff _ _) (Qeq_refl _)). reflexivity.
Qed.

Lemma py_index_in (td : TickData) (l : list TickData) :
  In td l -> exists i, py_index td l = Some i.
Proof.
  induction l as [| x l IH]; intros H; [contradiction |]. simpl.
  destruct (TickData_eqb x td) eqn:E; [eexists; reflexivity |].
  destruct H as [-> | H]; [rewrite TickData_eqb_refl in E; discriminate |].
  destruct (IH H) as [i ->]. eexists. reflexivity.
Qed.

Lemma fill_step_fold (o : OnsetList) (L ts : list TickData) (p v : list Z) :
  (forall td, In td ts -> In td L) ->
  (forall td, In td ts -> (1 <= step (grid_position td) <= STEPS_PER_BAR)%Z) ->
  List.length p = 16%nat -> List.length v = 16%nat ->
  exists p' v', fold_left (fill_step o L) ts (Some (p, v)) = Some (p', v') /\
    List.length p' = 16%nat /\ List.length v' = 16%nat /\
    (forall j, (j < 16)%nat ->
       (nth j p' 0%Z = 1%Z <-> nth j p 0%Z = 1%Z \/
          exists td, In td ts /\ step (grid_position td) = Z.of_nat (S j))) /\
    (Forall (fun x => x = 0%Z \/ x = 1%Z) p -> Forall (fun x => x = 0%Z \/ x = 1%Z) p').
Proof.
  revert p v. induction ts as [| td ts IH]; intros p v HL Hs Hp Hv.
  - exists p, v. split; [reflexivity |]. split; [exact Hp |]. split; [exact Hv |].
    split; [| auto]. intros j _. split; [auto |].
    intros [H | [td [[] _]]]. exact H.
  - cbn [fold_left].
    assert (Hstd := Hs td (or_introl eq_refl)). unfold STEPS_PER_BAR in Hstd.
    destruct (py_index_in td L (HL td (or_introl eq_refl))) as [i Hi].
    set (k := Z.to_nat (step (grid_position td) - 1)).
    assert (Hk : (k < 16)%nat) by (unfold k; lia).
    set (p1 := list_set p k 1%Z).
    set (v1 := match nth_error (onsets o) i with
               | Some onset => list_set v k (velocity onset)
               | None => v end).
    assert (Hstep : fill_step o L (Some (p, v)) td = Some (p1, v1)).
    { unfold fill_step.
      replace ((0 <=? step (grid_position td) - 1)%Z &&
               (step (grid_position td) - 1 <? STEPS_PER_BAR)%Z)%bool
        with true by (symmetry; apply andb_true_iff; split; [apply Z.leb_le | apply Z.ltb_lt];
                      unfold STEPS_PER_BAR; lia).
      rewrite Hi. unfold v1, p1, k. destruct (nth_error (onsets o) i); reflexivity. }
    rewrite Hstep.
    destruct (IH p1 v1) as [p' [v' [H1 [H2 [H3 [H4 H5]]]]]].
    + intros t Ht. apply HL. right. exact Ht.
    + intros t Ht. apply Hs. right. exact Ht.
    + unfold p1. rewrite list_set_length. exact Hp.
    + unfold v1. destruct (nth_error (onsets o) i); [rewrite list_set_length |]; exact Hv.
    + exists p', v'. split; [exact H1 |]. split; [exact H2 |]. split; [exact H3 |].
      split; [| intros H01; apply H5; apply list_set_01; exact H01].
      intros j Hj. rewrite (H4 j Hj). unfold p1. rewrite list_set_nth by lia.
      destruct (Nat.eqb j k) eqn:Ejk.
      * apply Nat.eqb_eq in Ejk. split; [intros _; right; exists td; split; [left; reflexivity | unfold k in Ejk; lia] | intros _; left; reflexivity].
      * apply Nat.eqb_neq in Ejk. split.
        -- intros [H | [t [Ht Hst]]]; [left; exact H | right; exists t; split; [right; exact Ht | exact Hst]].
        -- intros [H | [t [[<- | Ht] Hst]]].
           ++ left. exact H.
           ++ exfalso. apply Ejk. unfold k. lia.
           ++ right. exists t. auto.
Qed.

Lemma option_all_map {A B : Type} (f : A -> option B) (P : A -> B -> Prop) (l : list A) :
  (forall x, In x l -> exists b, f x = Some b /\ P x b) ->
  exists bs, option_all (map f l) = Some bs /\ List.length bs = List.length l /\
    (forall k b, nth_error bs k = Some b -> exists x, nth_error l k = Some x /\ P x b).
Proof.
  induction l as [| x l IH]; intros H.
  - exists []. split; [reflexivity |]. split; [reflexivity |].
    intros [| k] b Hb; discriminate.
  - destruct (H x (or_introl eq_refl)) as [b [Hb Pb]].
    destruct IH as [bs [H1 [H2 H3]]]; [intros y Hy; apply H; right; exact Hy |].
    exists (b :: bs). simpl. rewrite Hb, H1. split; [reflexivity |].
    split; [simpl; rewrite H2; reflexivity |].
    intros [| k] b' Hb'; simpl in Hb' |- *.
    + injection Hb' as <-. exists x. auto.
    + apply H3. exact Hb'.
Qed.

Lemma tick_data_step_bounds (c : TimingConverter) (o : OnsetList) (td : TickData) :
  In td (onsets_to_tick_data c o) -> (1 <= step (grid_position td) <= STEPS_PER_BAR)%Z.
Proof.
  unfold onsets_to_tick_data. intros H. apply in_map_iff in H.
  destruct H as [onset [<- _]]. unfold onset_to_tick_data.
  destruct (quantize_tick c _) as [q d]. cbn [grid_position].
  unfold tick_to_grid_position, STEPS_PER_BAR. cbn [step]. lia.
Qed.

Lemma bar_data_structure (c : TimingConverter) (o : OnsetList) (num_bars : option Z) :
  onsets o <> [] ->
  let tick_data_list := onsets_to_tick_data c o in
  let n := match num_bars with Some n => n | None => max_bar tick_data_list end in
  exists bars, onsets_to_bar_data c o num_bars = Some bars /\
    List.length bars = Z.to_nat n /\
    forall k b, nth_error bars k = Some b ->
      bar_number b = Z.of_nat (S k) /\
      bar_ticks b = filter (fun td => Z.eqb (bar (grid_position td)) (Z.of_nat (S k)))
                      tick_data_list /\
      List.length (pattern b) = 16%nat /\ List.length (velocities b) = 16%nat /\
      Forall (fun x => x = 0%Z \/ x = 1%Z) (pattern b) /\
      (forall j, (j < 16)%nat ->
         (nth j (pattern b) 0%Z = 1%Z <->
          exists td, In td (bar_ticks b) /\ step (grid_position td) = Z.of_nat (S j))).
Proof.
  intros Hne. cbv zeta. unfold onsets_to_bar_data.
  replace (List.length (onsets o) =? 0)%nat with false
    by (symmetry; apply Nat.eqb_neq; destruct (onsets o); [contradiction | discriminate]).
  set (L := onsets_to_tick_data c o).
  set (P := fun (k : nat) (b : BarData) =>
      bar_number b = Z.of_nat k /\
      bar_ticks b = filter (fun td => Z.eqb (bar (grid_position td)) (Z.of_nat k)) L /\
      List.length (pattern b) = 16%nat /\ List.length (velocities b) = 16%nat /\
      Forall (fun x => x = 0%Z \/ x = 1%Z) (pattern b) /\
      (forall j, (j < 16)%nat ->
         (nth j (pattern b) 0%Z = 1%Z <->
          exists td, In td (bar_ticks b) /\ step (grid_position td) = Z.of_nat (S j)))).
  destruct (option_all_map (fun k => bar_data_of o L (Z.of_nat k)) P (seq 1 (Z.to_nat (match num_bars with Some n => n | None => max_bar L end))))
    as [bars [H1 [H2 H3]]].
  { intros k _. unfold bar_data_of.
    set (ts := filter _ L).
    destruct (fill_step_fold o L ts (repeat 0%Z (Z.to_nat STEPS_PER_BAR))
                (repeat 0%Z (Z.to_nat STEPS_PER_BAR)))
      as [p' [v' [F1 [F2 [F3 [F4 F5]]]]]].
    - intros td Htd. unfold ts in Htd. apply filter_In in Htd. apply Htd.
    - intros td Htd. unfold ts in Htd. apply filter_In in Htd.
      apply (tick_data_step_bounds c o). apply Htd.
    - reflexivity.
    - reflexivity.
    - rewrite F1. eexists. split; [reflexivity |].
      unfold P. cbn [bar_number bar_ticks pattern velocities].
      split; [reflexivity |]. split; [reflexivity |]. split; [exact F2 |]. split; [exact F3 |].
      split.
      + apply F5. apply Forall_forall. intros x Hx. apply repeat_spec in Hx. left. exact Hx.
      + intros j Hj. rewrite (F4 j Hj).
        assert (Hr : nth j (repeat 0%Z (Z.to_nat STEPS_PER_BAR)) 0%Z = 0%Z).
        { destruct (nth_in_or_default j (repeat 0%Z (Z.to_nat STEPS_PER_BAR)) 0%Z) as [Hin | Hd].
          - apply repeat_spec in Hin. exact Hin.
          - exact Hd. }
        rewrite Hr. split; [intros [H | H]; [discriminate | exact H] | intros H; right; exact H]. }
  rewrite H1. exists bars. split; [reflexivity |].
  split; [rewrite H2, length_seq; reflexivity |].
  intros k b Hb. destruct (H3 k b Hb) as [x [Hx Px]].
  assert (Hk : (k < Z.to_nat (match num_bars with Some n => n | None => max_bar L end))%nat).
  { assert (Hl : (k < List.length bars)%nat)
      by (apply nth_error_Some; rewrite Hb; discriminate).
    rewrite H2, length_seq in Hl. exact Hl. }
  rewrite nth_error_seq in Hx. destruct (k <? Z.to_nat (match num_bars with Some n => n | None => max_bar L end))%nat eqn:E;
    [| apply Nat.ltb_ge in E; lia].
  injection Hx as <-. replace (1 + k)%nat with (S k) in Px by lia. exact Px.
Qed.

(** X21: for a converter built with bpm > 0 and ppq >= 4 (so that no division by zero is raised) and non-empty onsets, with an explicit bar count, [onsets_to_bar_data] returns that many bars; bar k is numbered k+1, holds exactly the tick data of that bar, and has a 0/1 pattern of 16 steps marking exactly the steps hit in it, and 16 velocities. *)
Theorem onsets_to_bar_data_spec (bpm : Q) (ppq : Z) (o : OnsetList) (num_bars : Z) :
  0 < bpm -> (4 <= ppq)%Z -> onsets o <> [] ->
  let c := mkTimingConverter bpm ppq in
  let tick_data_list := onsets_to_tick_data c o in
  exists bars, onsets_to_bar_data c o (Some num_bars) = Some bars /\
    List.length bars = Z.to_nat num_bars /\
    forall k b, nth_error bars k = Some b ->
      bar_number b = Z.of_nat (S k) /\
      bar_ticks b = filter (fun td => Z.eqb (bar (grid_position td)) (Z.of_nat (S k)))
                      tick_data_list /\
      List.length (pattern b) = 16%nat /\ List.length (velocities b) = 16%nat /\
      Forall (fun x => x = 0%Z \/ x = 1%Z) (pattern b) /\
      (forall j, (j < 16)%nat ->
         (nth j (pattern b) 0%Z = 1%Z <->
          exists td, In td (bar_ticks b) /\ step (grid_position td) = Z.of_nat (S j))).
Proof.
  intros _ _ Hne. exact (bar_data_structure (mkTimingConverter bpm ppq) o (Some num_bars) Hne).
Qed.

Lemma max_bar_ge (L : list TickData) (td : TickData) :
  In td L -> (bar (grid_position td) <= max_bar L)%Z.
Proof.
  destruct L as [| td0 rest]; [intros [] |]. unfold max_bar.
  assert (G : forall l acc, (acc <= fold_left (fun m t => Z.max m (bar (grid_position t))) l acc)%Z /\
     forall t, In t l -> (bar (grid_position t) <= fold_left (fun m t => Z.max m (bar (grid_position t))) l acc)%Z).
  { induction l as [| t l IH]; intros acc; simpl; [split; [lia | intros _ []] |].
    destruct (IH (Z.max acc (bar (grid_position t)))) as [H1 H2].
    split; [lia |]. intros t' [<- | Ht]; [lia | apply H2; exact Ht]. }
  intros [<- | H]; [apply (proj1 (G rest _)) | apply (proj2 (G rest _)); exact H].
Qed.

Lemma tick_data_bar_pos (bpm : Q) (ppq : Z) (onset : OnsetData) :
  0 <= bpm -> (4 <= ppq)%Z -> 0 <= time onset ->
  (1 <= bar (grid_position (onset_to_tick_data (mkTimingConverter bpm ppq) onset)))%Z.
Proof.
  intros Hb Hp Ht. unfold onset_to_tick_data, quantize_tick.
  cbn [ticks_per_step ticks_per_bar mkTimingConverter grid_position].
  unfold tick_to_grid_position. cbn [bar ticks_per_bar mkTimingConverter].
  set (k := (ppq / 4)%Z).
  assert (Hk : (0 < k)%Z) by (unfold k; apply Z.div_str_pos; lia).
  set (t0 := tc_time_to_tick _ (time onset)).
  assert (Ht0 : (0 <= t0)%Z).
  { unfold t0, tc_time_to_tick, time_to_tick. cbn [tc_bpm tc_ppq mkTimingConverter].
    apply py_int_ge0. apply Qmult_le_0_compat; [| unfold Qle; simpl; lia].
    apply Qle_shift_div_l; [reflexivity |]. rewrite Qmult_0_l.
    apply Qmult_le_0_compat; assumption. }
  set (s := py_round (inject_Z t0 / inject_Z k)).
  destruct (py_round_bounds (inject_Z t0 / inject_Z k)) as [B1 _]. fold s in B1.
  assert (Hq : 0 <= inject_Z t0 / inject_Z k).
  { apply Qle_shift_div_l; [unfold Qlt; simpl; lia |]. rewrite Qmult_0_l.
    unfold Qle; simpl; lia. }
  assert (Hs : (0 <= s)%Z).
  { assert (H : -1 < inject_Z s) by lra.
    change (-1) with (inject_Z (-1)) in H. rewrite <- Zlt_Qlt in H. lia. }
  assert (0 <= (s * k) / (ppq * 4))%Z by (apply Z.div_pos; lia).
  lia.
Qed.

(** X22: for a converter built with bpm > 0 and ppq >= 4, onsets at non-negative times and no bar count, every tick datum lands in exactly one of the bars [onsets_to_bar_data] returns. *)
Theorem onsets_to_bar_data_covers (bpm : Q) (ppq : Z) (o : OnsetList) :
  0 < bpm -> (4 <= ppq)%Z -> onsets o <> [] ->
  Forall (fun onset => 0 <= time onset) (onsets o) ->
  let c := mkTimingConverter bpm ppq in
  exists bars, onsets_to_bar_data c o None = Some bars /\
    forall td, In td (onsets_to_tick_data c o) ->
      exists k b, nth_error bars k = Some b /\ In td (bar_ticks b) /\
        forall k' b', nth_error bars k' = Some b' -> In td (bar_ticks b') -> k' = k.
Proof.
  intros Hb Hp Hne Ht. cbv zeta.
  destruct (bar_data_structure (mkTimingConverter bpm ppq) o None Hne) as [bars [H1 [H2 H3]]].
  exists bars. split; [exact H1 |].
  intros td Htd.
  assert (Hpos : (1 <= bar (grid_position td))%Z).
  { unfold onsets_to_tick_data in Htd. apply in_map_iff in Htd.
    destruct Htd as [onset [<- Hin]]. apply tick_data_bar_pos; [apply Qlt_le_weak; exact Hb | exact Hp |].
    rewrite Forall_forall in Ht. apply Ht. exact Hin. }
  pose proof (max_bar_ge _ _ Htd) as Hmax.
  set (k := (Z.to_nat (bar (grid_position td)) - 1)%nat).
  assert (Hk : (k < List.length bars)%nat) by (rewrite H2; unfold k; lia).
  destruct (nth_error bars k) as [b |] eqn:Eb;
    [| apply nth_error_None in Eb; lia].
  exists k, b. destruct (H3 k b Eb) as [_ [Hticks _]].
  split; [exact Eb |]. split.
  - rewrite Hticks. apply filter_In. split; [exact Htd |]. apply Z.eqb_eq. unfold k. lia.
  - intros k' b' Eb' Hin. destruct (H3 k' b' Eb') as [_ [Hticks' _]].
    rewrite Hticks' in Hin. apply filter_In in Hin. destruct Hin as [_ Hin].
    apply Z.eqb_eq in Hin. unfold k. lia.
Qed.


Lemma onsets_to_bar_data_spec_witness :
  0 < 120 /\ (4 <= 480)%Z /\ onsets example_onsets <> [] /\
  let c := mkTimingConverter 120 480 in
  let tick_data_list := onsets_to_tick_data (mkTimingConverter 120 480) example_onsets in
  exists bars, onsets_to_bar_data (mkTimingConverter 120 480) example_onsets (Some 3%Z) = Some bars /\
    List.length bars = Z.to_nat 3%Z /\
    forall k b, nth_error bars k = Some b ->
      bar_number b = Z.of_nat (S k) /\
      bar_ticks b = filter (fun td => Z.eqb (bar (grid_position td)) (Z.of_nat (S k)))
                      tick_data_list /\
      List.length (pattern b) = 16%nat /\ List.length (velocities b) = 16%nat /\
      Forall (fun x => x = 0%Z \/ x = 1%Z) (pattern b) /\
      (forall j, (j < 16)%nat ->
         (nth j (pattern b) 0%Z = 1%Z <->
          exists td, In td (bar_ticks b) /\ step (grid_position td) = Z.of_nat (S j))).
Proof.
  assert (H1 : 0 < 120) by reflexivity.
  assert (H2 : (4 <= 480)%Z) by discriminate.
  assert (H : onsets example_onsets <> []) by discriminate.
  split; [exact H1 |]. split; [exact H2 |]. split; [exact H |].
  exact (onsets_to_bar_data_spec 120 480 _ 3%Z H1 H2 H).
Defined.

Lemma onsets_to_bar_data_covers_witness :
  0 < 120 /\ (4 <= 480)%Z /\ onsets example_onsets <> [] /\
  Forall (fun onset => 0 <= time onset) (onsets example_onsets) /\
  let c := mkTimingConverter 120 480 in
  exists bars, onsets_to_bar_data c example_onsets None = Some bars /\
    forall td, In td (onsets_to_tick_data c example_onsets) ->
      exists k b, nth_error bars k = Some b /\ In td (bar_ticks b) /\
        forall k' b', nth_error bars k' = Some b' -> In td (bar_ticks b') -> k' = k.
Proof.
  assert (H1 : 0 < 120) by reflexivity.
  assert (H2 : (4 <= 480)%Z) by discriminate.
  assert (H3 : onsets example_onsets <> []) by discriminate.
  assert (H4 : Forall (fun onset => 0 <= time onset) (onsets example_onsets))
    by (repeat constructor; discriminate).
  split; [exact H1 |]. split; [exact H2 |]. split; [exact H3 |]. split; [exact H4 |].
  exact (onsets_to_bar_data_covers _ _ _ H1 H2 H3 H4).
Defined.


Lemma dict_get_set_same {A : Type} (d : list (string * A)) (key : string) (v : A) :
  dict_get (dict_set d key v) key = Some v.
Proof.
  induction d as [| [k' v'] d IH]; simpl; [rewrite String.eqb_refl; reflexivity |].
  destruct (String.eqb k' key) eqn:E; simpl; [rewrite String.eqb_refl; reflexivity |].
  rewrite E. exact IH.
Qed.

Lemma dict_get_set_other {A : Type} (d : list (string * A)) (key key' : string) (v : A) :
  key' <> key -> dict_get (dict_set d key v) key' = dict_get d key'.
Proof.
  intros Hne. induction d as [| [k' v'] d IH]; simpl.
  - replace (String.eqb key key') with false
      by (symmetry; apply String.eqb_neq; auto). reflexivity.
  - destruct (String.eqb k' key) eqn:E; simpl.
    + apply String.eqb_eq in E. subst k'.
      replace (String.eqb key key') with false
        by (symmetry; apply String.eqb_neq; auto). reflexivity.
    + destruct (String.eqb k' key'); [reflexivity | exact IH].
Qed.

Lemma set_timing_dev_fold (ts : list TickData) (devs : list Q) :
  List.length devs = 16%nat ->
  List.length (fold_left set_timing_dev ts devs) = 16%nat /\
  forall j, (j < 16)%nat -> ~ nth j (fold_left set_timing_dev ts devs) 0 == 0 ->
    ~ nth j devs 0 == 0 \/ exists td, In td ts /\ step (grid_position td) = Z.of_nat (S j).
Proof.
  revert devs. induction ts as [| td ts IH]; intros devs Hl; cbn [fold_left].
  - split; [exact Hl |]. intros j _ H. left. exact H.
  - destruct ((0 <=? step (grid_position td) - 1)%Z && (step (grid_position td) - 1 <? 16)%Z)%bool
      eqn:E.
    + assert (Hs : set_timing_dev devs td =
                   list_set devs (Z.to_nat (step (grid_position td) - 1)) (deviation_ms td))
        by (unfold set_timing_dev; rewrite E; reflexivity).
      rewrite Hs.
      apply andb_true_iff in E. destruct E as [E1 E2].
      apply Z.leb_le in E1. apply Z.ltb_lt in E2.
      set (kk := Z.to_nat (step (grid_position td) - 1)).
      destruct (IH (list_set devs kk (deviation_ms td))) as [H1 H2];
        [rewrite list_set_length; exact Hl |].
      split; [exact H1 |]. intros j Hj Hn.
      destruct (H2 j Hj Hn) as [H | [t [Ht Hst]]].
      * rewrite list_set_nth in H by (unfold kk; lia).
        destruct (Nat.eqb j kk) eqn:Ejk.
        -- apply Nat.eqb_eq in Ejk. right. exists td. split; [left; reflexivity |].
           unfold kk in Ejk. lia.
        -- left. exact H.
      * right. exists t. split; [right; exact Ht | exact Hst].
    + assert (Hs : set_timing_dev devs td = devs)
        by (unfold set_timing_dev; rewrite E; reflexivity).
      rewrite Hs.
      destruct (IH devs Hl) as [H1 H2]. split; [exact H1 |].
      intros j Hj Hn. destruct (H2 j Hj Hn) as [H | [t [Ht Hst]]]; [left; exact H |].
      right. exists t. split; [right; exact Ht | exact Hst].
Qed.

(** X23: with a converter built with bpm > 0 and ppq >= 4, [_add_instrument_data] on non-empty onsets stores the instrument under its name without touching the others, with its onsets, its humanization stats, one grid per bar of 16 steps each, and a non-zero timing deviation only on a step marked as hit. *)
Theorem add_instrument_data_spec (bpm : Q) (ppq : Z) (num_bars : option Z) (tol : Q)
    (groove : GrooveData) (name : string) (o : OnsetList) :
  0 < bpm -> (4 <= ppq)%Z -> onsets o <> [] ->
  let c := mkTimingConverter bpm ppq in
  let tick_data_list := onsets_to_tick_data c o in
  exists groove', _add_instrument_data c num_bars tol groove name o = Some groove' /\
    (forall other, other <> name ->
       dict_get (instruments groove') other = dict_get (instruments groove) other) /\
    exists inst, dict_get (instruments groove') name = Some inst /\
      inst_onsets inst = o /\
      humanization inst = Some (get_humanization_stats tick_data_list tol) /\
      List.length (grids inst) =
        Z.to_nat (match num_bars with Some n => n | None => max_bar tick_data_list end) /\
      Forall (fun gm =>
        List.length (grid_pattern gm) = 16%nat /\ List.length (timing_deviations gm) = 16%nat /\
        forall j, (j < 16)%nat -> ~ nth j (timing_deviations gm) 0 == 0 ->
          nth j (grid_pattern gm) 0%Z = 1%Z) (grids inst).
Proof.
  intros _ _ Hne. cbv zeta. set (c := mkTimingConverter bpm ppq). unfold _add_instrument_data.
  replace (List.length (onsets o) =? 0)%nat with false
    by (symmetry; apply Nat.eqb_neq; destruct (onsets o); [contradiction | discriminate]).
  destruct (bar_data_structure c o num_bars Hne) as [bars [H1 [H2 H3]]].
  rewrite H1. eexists. split; [reflexivity |].
  cbn [add_instrument instruments]. split.
  - intros other Hother. apply dict_get_set_other. exact Hother.
  - eexists. split; [apply dict_get_set_same |].
    cbn [inst_onsets humanization grids]. split; [reflexivity |]. split; [reflexivity |].
    split; [rewrite length_map; exact H2 |].
    apply Forall_map. apply Forall_forall. intros b Hb.
    apply In_nth_error in Hb. destruct Hb as [kk Hb].
    destruct (H3 kk b Hb) as [_ [_ [Hp [_ [_ Hpat]]]]].
    unfold grid_of. cbn [grid_pattern timing_deviations].
    destruct (set_timing_dev_fold (bar_ticks b) (repeat 0 16) eq_refl) as [T1 T2].
    split; [exact Hp |]. split; [exact T1 |].
    intros j Hj Hn. apply (Hpat j Hj).
    destruct (T2 j Hj Hn) as [H | H]; [| exact H].
    exfalso. apply H.
    destruct (nth_in_or_default j (repeat 0 16) 0) as [Hin | Hd].
    + apply repeat_spec in Hin. rewrite Hin. reflexivity.
    + rewrite Hd. reflexivity.
Qed.


Lemma add_instrument_data_spec_witness :
  0 < 120 /\ (4 <= 480)%Z /\ onsets example_onsets <> [] /\
  let c := mkTimingConverter 120 480 in
  let tick_data_list := onsets_to_tick_data c example_onsets in
  exists groove', _add_instrument_data c None 5 empty_groove "kick"%string example_onsets = Some groove' /\
    (forall other, other <> "kick"%string ->
       dict_get (instruments groove') other = dict_get (instruments empty_groove) other) /\
    exists inst, dict_get (instruments groove') "kick"%string = Some inst /\
      inst_onsets inst = example_onsets /\
      humanization inst = Some (get_humanization_stats tick_data_list 5) /\
      List.length (grids inst) = Z.to_nat (max_bar tick_data_list) /\
      Forall (fun gm =>
        List.length (grid_pattern gm) = 16%nat /\ List.length (timing_deviations gm) = 16%nat /\
        forall j, (j < 16)%nat -> ~ nth j (timing_deviations gm) 0 == 0 ->
          nth j (grid_pattern gm) 0%Z = 1%Z) (grids inst).
Proof.
  assert (H1 : 0 < 120) by reflexivity.
  assert (H2 : (4 <= 480)%Z) by discriminate.
  assert (H : onsets example_onsets <> []) by discriminate.
  split; [exact H1 |]. split; [exact H2 |]. split; [exact H |].
  exact (add_instrument_data_spec 120 480 None 5 empty_groove "kick"%string
           example_onsets H1 H2 H).
Defined.

Lemma py_int_opp (x : Q) : py_int (- x) = (- py_int x)%Z.
Proof. destruct x as [n d]. unfold py_int. simpl. apply Z.quot_opp_l. discriminate. Qed.

Lemma py_int_mono (x y : Q) : x <= y -> (py_int x <= py_int y)%Z.
Proof.
  intros H. destruct (Qlt_le_dec x 0) as [Hx | Hx].
  - destruct (Qlt_le_dec y 0) as [Hy | Hy].
    + assert (E1 : py_int x = (- py_int (- x))%Z) by (rewrite py_int_opp; lia).
      assert (E2 : py_int y = (- py_int (- y))%Z) by (rewrite py_int_opp; lia).
      rewrite E1, E2. rewrite !py_int_nonneg by lra.
      assert (Qfloor (- y) <= Qfloor (- x))%Z by (apply Qfloor_resp_le; lra). lia.
    + assert (E1 : py_int x = (- py_int (- x))%Z) by (rewrite py_int_opp; lia).
      rewrite E1. rewrite !py_int_nonneg by lra.
      assert (0 <= Qfloor (- x))%Z.
      { change 0%Z with (Qfloor 0). apply Qfloor_resp_le. lra. }
      assert (0 <= Qfloor y)%Z.
      { change 0%Z with (Qfloor 0). apply Qfloor_resp_le. lra. }
      lia.
  - rewrite !py_int_nonneg by lra. apply Qfloor_resp_le. exact H.
Qed.

Lemma py_round_mono (x y : Q) : x <= y -> (py_round x <= py_round y)%Z.
Proof.
  intros H. unfold py_round.
  pose proof (Qfloor_resp_le x y H) as Hf.
  pose proof (Qfloor_le x) as Fx1. pose proof (Qlt_floor x) as Fx2.
  pose proof (Qfloor_le y) as Fy1. pose proof (Qlt_floor y) as Fy2.
  rewrite inject_Z_plus in Fx2, Fy2. change (inject_Z 1) with 1 in Fx2, Fy2.
  set (fx := Qfloor x) in *. set (fy := Qfloor y) in *.
  destruct (Z.eq_dec fx fy) as [Heq | Hne].
  - rewrite <- Heq.
    assert (Hle : x - inject_Z fx <= y - inject_Z fx) by lra.
    destruct (Qltb (x - inject_Z fx) (1 # 2)) eqn:E1;
    destruct (Qltb (y - inject_Z fx) (1 # 2)) eqn:E2; qbool;
    repeat match goal with |- context [if ?b then _ else _] => destruct b eqn:? end;
    qbool; try lia; lra.
  - assert (Hlt : (fx + 1 <= fy)%Z) by lia.
    repeat match goal with |- context [if ?b then _ else _] => destruct b end; lia.
Qed.

(** X19: [onset_to_tick_data] keeps the order of onsets: a later onset never gets a smaller tick or quantized tick. *)
Theorem onset_to_tick_data_monotone (bpm : Q) (ppq : Z) (o1 o2 : OnsetData) :
  0 <= bpm -> (4 <= ppq)%Z -> time o1 <= time o2 ->
  let c := mkTimingConverter bpm ppq in
  (tick (onset_to_tick_data c o1) <= tick (onset_to_tick_data c o2))%Z /\
  (quantized_tick (onset_to_tick_data c o1) <= quantized_tick (onset_to_tick_data c o2))%Z.
Proof.
  intros Hb Hp Ht. cbv zeta. unfold onset_to_tick_data, quantize_tick.
  cbn [tick quantized_tick ticks_per_step mkTimingConverter].
  assert (Htk : (tc_time_to_tick (mkTimingConverter bpm ppq) (time o1) <=
                 tc_time_to_tick (mkTimingConverter bpm ppq) (time o2))%Z).
  { unfold tc_time_to_tick, time_to_tick. cbn [tc_bpm tc_ppq mkTimingConverter].
    apply py_int_mono.
    apply Qmult_le_compat_r; [| unfold Qle; simpl; lia].
    unfold Qdiv. apply Qmult_le_compat_r; [| discriminate].
    apply Qmult_le_compat_r; assumption. }
  split; [exact Htk |].
  set (k := (ppq / 4)%Z).
  assert (Hk : (0 < k)%Z) by (unfold k; apply Z.div_str_pos; lia).
  apply Z.mul_le_mono_nonneg_r; [lia |].
  apply py_round_mono. unfold Qdiv. apply Qmult_le_compat_r.
  - rewrite <- Zle_Qle. exact Htk.
  - apply Qinv_le_0_compat. unfold Qle; simpl; lia.
Qed.

Lemma onset_to_tick_data_monotone_witness :
  0 <= 120 /\ (4 <= 480)%Z /\ time (onset_at (1 # 4)) <= time (onset_at (3 # 4)) /\
  let c := mkTimingConverter 120 480 in
  (tick (onset_to_tick_data c (onset_at (1 # 4))) <= tick (onset_to_tick_data c (onset_at (3 # 4))))%Z /\
  (quantized_tick (onset_to_tick_data c (onset_at (1 # 4))) <=
   quantized_tick (onset_to_tick_data c (onset_at (3 # 4))))%Z.
Proof.
  assert (H1 : 0 <= 120) by discriminate.
  assert (H2 : (4 <= 480)%Z) by discriminate.
  assert (H3 : time (onset_at (1 # 4)) <= time (onset_at (3 # 4))) by discriminate.
  split; [exact H1 |]. split; [exact H2 |]. split; [exact H3 |].
  exact (onset_to_tick_data_monotone _ _ _ _ H1 H2 H3).
Defined.
